(** * The status/metrics service of [src/app/src/server.js]

    A shallow embedding of the Express application built in [server.js]:
    the middleware stack in registration order, Express's dispatch over that
    stack, the process-wide state the handlers read and write, and the
    signal handlers that close the server.

    Conventions.
    - A response is the status code and the payload handed to [res.json] /
      [res.send]; response headers are not modelled.
    - [new Date().toISOString()] is the node [JDate t], with [t] the value of
      [Date.now()] at that instant.
    - JavaScript numbers are exact: the counter is a natural number, the
      running average a rational.  Rounding of doubles is not modelled.
    - The third-party middleware ([helmet], [cors], [express-rate-limit],
      [morgan], the body parsers) is modelled by its documented behaviour
      under the options that [server.js] passes. *)

From Stdlib Require Import ZArith NArith QArith Ascii String Lia.
From stdpp Require Import gmap strings list.

Local Open Scope string_scope.
Local Open Scope list_scope.
Local Open Scope Z_scope.

(** ** Requests, JSON payloads, responses *)

Inductive Method := GET | HEAD | POST | PUT | DELETE | PATCH | OPTIONS.

Definition Method_eqb (a b : Method) : bool :=
  match a, b with
  | GET, GET | HEAD, HEAD | POST, POST | PUT, PUT
  | DELETE, DELETE | PATCH, PATCH | OPTIONS, OPTIONS => true
  | _, _ => false
  end.

(** A JavaScript [Error]; only [err.message] is read by the program. *)
Record JsError := mkError { err_message : string }.

(** What the body parsers make of the request body: nothing to parse, a
    body that parses, or a body one of the two parsers rejects (malformed,
    or larger than the [10mb] limit) by passing an error to [next]. *)
Inductive ReqBody :=
| NoBody
| Parsed
| JsonRejected (e : JsError)
| UrlencodedRejected (e : JsError).

Record Request := mkRequest {
  method : Method;
  originalUrl : string;          (* req.originalUrl: path and query string *)
  ip : string;                   (* req.ip *)
  userAgent : option string;     (* req.get('User-Agent') *)
  reqBody : ReqBody
}.

#[local] Set Warnings "-register-all".

Inductive Json :=
| JStr (s : string)
| JNum (q : Q)
| JDate (t : Z)
| JArr (items : list Json)
| JObj (fields : list (string * Json)).

Inductive Body :=
| BJson (j : Json)               (* res.json(j) *)
| BText (s : string)             (* res.send(s) *)
| BEmpty                         (* res.end() *)
| BFinal (e : option JsError).   (* Express's built-in final handler page *)

Record Response := mkResponse { status : Z; body : Body }.

(** [obj.key] on a JSON object. *)
Fixpoint assoc (k : string) (fs : list (string * Json)) : option Json :=
  match fs with
  | [] => None
  | (k', v) :: rest => if String.eqb k k' then Some v else assoc k rest
  end.

Definition field (k : string) (j : Json) : option Json :=
  match j with
  | JObj fs => assoc k fs
  | _ => None
  end.

Definition payload (r : Response) : option Json :=
  match body r with
  | BJson j => Some j
  | _ => None
  end.

(** ** Process state *)

(** [process.env], as far as [server.js] reads it after start-up. *)
Record Env := mkEnv {
  NODE_ENV : option string;
  npm_package_version : option string
}.

(** [req.app.locals]: both properties start out undefined. *)
Record Locals := mkLocals {
  requestCount : option N;
  avgResponseTime : option Q
}.

Inductive LogEntry :=
| LogInfo (msg : string)
| LogCaller (msg : string) (addr : string) (agent : option string)
| LogError (msg : string) (e : JsError)
| LogAccess (m : Method) (url : string) (st : Z).   (* a morgan 'combined' line *)

Record World := mkWorld {
  env : Env;
  now : Z;                         (* Date.now(), milliseconds *)
  upNanos : N;                     (* monotonic clock since process start *)
  locals : Locals;
  hits : gmap string (N * Z);      (* rate limiter store: hits, reset time *)
  log : list LogEntry;             (* winston output, oldest first *)
  exitCode : option Z              (* set by process.exit *)
}.

Definition set_locals (l : Locals) (w : World) : World :=
  mkWorld (env w) (now w) (upNanos w) l (hits w) (log w) (exitCode w).

Definition set_hits (h : gmap string (N * Z)) (w : World) : World :=
  mkWorld (env w) (now w) (upNanos w) (locals w) h (log w) (exitCode w).

Definition logger (e : LogEntry) (w : World) : World :=
  mkWorld (env w) (now w) (upNanos w) (locals w) (hits w) (log w ++ [e]) (exitCode w).

Definition process_exit (c : Z) (w : World) : World :=
  mkWorld (env w) (now w) (upNanos w) (locals w) (hits w) (log w) (Some c).

(** Time passes: [ms] milliseconds on both clocks. *)
Definition elapse (ms : N) (w : World) : World :=
  mkWorld (env w) (now w + Z.of_N ms) (upNanos w + ms * 1000000)%N
          (locals w) (hits w) (log w) (exitCode w).

(** [process.uptime()]: seconds, with a fractional part. *)
Definition process_uptime (w : World) : Q :=
  Z.of_N (upNanos w) # 1000000000.

(** The state of a freshly started process. *)
Definition boot (e : Env) (t : Z) : World :=
  mkWorld e t 0%N (mkLocals None None) ∅ [] None.

(** ** JavaScript's [||] at the three types it is used at *)

(** [s || d] for an environment variable: unset and empty are falsy. *)
Definition or_str (o : option string) (d : string) : string :=
  match o with
  | Some s => if String.eqb s "" then d else s
  | None => d
  end.

(** [n || d] for the counter: undefined and [0] are falsy. *)
Definition or_N (o : option N) (d : N) : N :=
  match o with
  | Some n => if (n =? 0)%N then d else n
  | None => d
  end.

(** [q || d] for the average. *)
Definition or_Q (o : option Q) (d : Q) : Q :=
  match o with
  | Some q => if Qeq_bool q 0 then d else q
  | None => d
  end.

Definition N2Q (n : N) : Q := inject_Z (Z.of_N n).

(** ** Express: paths and route matching *)

Definition lower_ascii (c : ascii) : ascii :=
  let n := nat_of_ascii c in
  if ((65 <=? n) && (n <=? 90))%nat then ascii_of_nat (n + 32) else c.

Fixpoint lower (s : string) : string :=
  match s with
  | EmptyString => EmptyString
  | String c r => String (lower_ascii c) (lower r)
  end.

(** [req.path]: the URL up to the query string. *)
Fixpoint path_of (url : string) : string :=
  match url with
  | EmptyString => EmptyString
  | String c r => if Ascii.eqb c "?" then EmptyString else String c (path_of r)
  end.

Definition req_path (r : Request) : string := path_of (originalUrl r).

Fixpoint strip_slash (s : string) : string :=
  match s with
  | EmptyString => EmptyString
  | String c EmptyString => if Ascii.eqb c "/" then EmptyString else s
  | String c r => String c (strip_slash r)
  end.

(** A route path against a request path, with Express's defaults: letter
    case is ignored and one trailing slash is optional. *)
Definition route_match (pat path : string) : bool :=
  let base := lower (strip_slash pat) in
  let p := lower path in
  String.eqb p base || String.eqb p (base +:+ "/").

(** A mount path of [app.use] against a request path: ['*'] takes every
    path, any other mount path takes the paths below it. *)
Definition use_match (pat path : string) : bool :=
  if String.eqb pat "*" then true
  else
    let base := lower (strip_slash pat) in
    let p := lower path in
    String.eqb p base || String.prefix (base +:+ "/") p.

(** A route registered for [GET] also answers [HEAD]. *)
Definition handles (route_method m : Method) : bool :=
  Method_eqb m route_method
  || (Method_eqb m HEAD && Method_eqb route_method GET).

(** ** Express: layers and dispatch *)

(** A listener of [res.on('finish', ...)]: it runs once the response has
    been handed to the network, in the state of that moment. *)
Definition Hook : Type := Response -> World -> World.

Inductive Outcome :=
| Next                    (* next() *)
| Raise (e : JsError)     (* next(err), or a throw *)
| Send (r : Response).    (* the response is ended *)

Definition Handler : Type := World -> Request -> World * list Hook * Outcome.

(** The layers of [server.js], in the order in which it registers them. *)
Inductive LayerName :=
| Helmet | Cors | Limiter | Morgan | JsonParser | UrlencodedParser
| Root | Health | Metrics | ApiStatus | ApiInfo
| ErrorBoundary | NotFound | RequestCounter | ResponseTimer.

Inductive LayerKind :=
| Use (h : Handler)                                (* app.use(fn) *)
| UseAt (pat : string) (h : Handler)               (* app.use(path, fn) *)
| Route (m : Method) (pat : string) (h : Handler)  (* app.get(path, fn) *)
| UseErr (h : JsError -> Handler).                 (* app.use((err, req, res, next) => ...) *)

Record Layer := mkLayer { name : LayerName; kind : LayerKind }.

(** Whether a layer takes the request, with or without a pending error. *)
Definition applies (l : Layer) (err : option JsError) (req : Request)
  : option Handler :=
  match kind l, err with
  | Use h, None => Some h
  | UseAt pat h, None =>
      if use_match pat (req_path req) then Some h else None
  | Route m pat h, None =>
      if route_match pat (req_path req) && handles m (method req)
      then Some h else None
  | UseErr h, Some e => Some (h e)
  | _, _ => None
  end.

Record Dispatched := mkDispatched {
  d_world : World;
  d_hooks : list Hook;
  d_visited : list LayerName;    (* the layers whose function ran *)
  d_response : Response
}.

(** When the stack is exhausted Express answers itself: 404 without a
    pending error, the error page otherwise.  The stack of [server.js]
    never gets that far. *)
Definition finalhandler (err : option JsError) : Response :=
  match err with
  | None => mkResponse 404 (BFinal None)
  | Some e => mkResponse 500 (BFinal (Some e))
  end.

Fixpoint dispatch (stack : list Layer) (err : option JsError) (req : Request)
    (w : World) (hooks : list Hook) (visited : list LayerName) : Dispatched :=
  match stack with
  | [] => mkDispatched w hooks visited (finalhandler err)
  | l :: rest =>
      match applies l err req with
      | None => dispatch rest err req w hooks visited
      | Some h =>
          let '(w', hs, out) := h w req in
          let hooks' := hooks ++ hs in
          let visited' := visited ++ [name l] in
          match out with
          | Next => dispatch rest None req w' hooks' visited'
          | Raise e => dispatch rest (Some e) req w' hooks' visited'
          | Send r => mkDispatched w' hooks' visited' r
          end
      end
  end.

Fixpoint run_hooks (hs : list Hook) (r : Response) (w : World) : World :=
  match hs with
  | [] => w
  | h :: rest => run_hooks rest r (h r w)
  end.

(** ** The middleware registered ahead of the routes (lines 30-52) *)

(** [helmet()] only sets response headers. *)
Definition helmet : Handler := fun w _ => (w, [], Next).

(** [cors({origin: [...], credentials: true})]: a preflight request is
    answered at once with 204, any other request gets headers only. *)
Definition cors : Handler := fun w req =>
  if Method_eqb (method req) OPTIONS
  then (w, [], Send (mkResponse 204 BEmpty))
  else (w, [], Next).

Definition windowMs : Z := 15 * 60 * 1000.
Definition limiter_max : N := 100.
Definition limiter_message : string :=
  "Too many requests from this IP, please try again later.".

(** The store entry of [key] once the current request is counted: the
    window restarts when its reset time has passed. *)
Definition hit (w : World) (key : string) : N * Z :=
  match hits w !! key with
  | Some (n, reset) =>
      if reset <=? now w then (1%N, now w + windowMs) else ((n + 1)%N, reset)
  | None => (1%N, now w + windowMs)
  end.

(** [rateLimit({windowMs, max, message, ...})], keyed by [req.ip]: the
    request is counted first, and turned away with 429 and [message] when
    the count of its address then exceeds [max]. *)
Definition limiter : Handler := fun w req =>
  let entry := hit w (ip req) in
  let w' := set_hits (<[ip req := entry]> (hits w)) w in
  if (limiter_max <? fst entry)%N
  then (w', [], Send (mkResponse 429 (BText limiter_message)))
  else (w', [], Next).

(** [morgan('combined', {stream})]: one line through [logger.info] when the
    response has finished. *)
Definition access_line (req : Request) : Hook := fun r w =>
  logger (LogAccess (method req) (originalUrl req) (status r)) w.

Definition morgan : Handler := fun w req => (w, [access_line req], Next).

(** [express.json({limit: '10mb'})]. *)
Definition json_parser : Handler := fun w req =>
  match reqBody req with
  | JsonRejected e => (w, [], Raise e)
  | _ => (w, [], Next)
  end.

(** [express.urlencoded({extended: true, limit: '10mb'})]. *)
Definition urlencoded_parser : Handler := fun w req =>
  match reqBody req with
  | UrlencodedRejected e => (w, [], Raise e)
  | _ => (w, [], Next)
  end.

(** ** The routes (lines 54-144) *)

Definition timestamp (w : World) : Json := JDate (now w).

Definition strs (l : list string) : Json := JArr (map JStr l).

Definition technologies : list string :=
  ["Node.js"; "Express"; "Docker"; "Kubernetes";
   "Jenkins"; "GitHub Actions"; "Terraform"; "Ansible";
   "SonarQube"; "Trivy"; "Prometheus"; "Grafana"].

Definition pipeline_description : string :=
  "A comprehensive CI/CD pipeline demonstrating DevOps and DevSecOps practices".

Definition root_payload (w : World) : Json :=
  JObj [("message", JStr "Welcome to DevOps CI/CD Pipeline Application! 🚀");
        ("status", JStr "success");
        ("timestamp", timestamp w);
        ("description", JStr pipeline_description);
        ("availableEndpoints", JObj
           [("root", JStr "GET / - This welcome page");
            ("health", JStr "GET /health - Health check and status");
            ("metrics", JStr "GET /metrics - Prometheus metrics");
            ("status", JStr "GET /api/v1/status - Application status and features");
            ("info", JStr "GET /api/v1/info - Application information and technologies")]);
        ("quickStart", JObj
           [("healthCheck", JStr "http://localhost:3000/health");
            ("apiStatus", JStr "http://localhost:3000/api/v1/status");
            ("documentation", JStr "Check the README.md for full setup instructions")]);
        ("technologies", strs technologies)].

Definition root_route : Handler := fun w _ =>
  (w, [], Send (mkResponse 200 (BJson (root_payload w)))).

Definition health_payload (w : World) : Json :=
  JObj [("status", JStr "healthy");
        ("timestamp", timestamp w);
        ("uptime", JNum (process_uptime w));
        ("environment", JStr (or_str (NODE_ENV (env w)) "development"));
        ("version", JStr (or_str (npm_package_version (env w)) "1.0.0"))].

Definition health_route : Handler := fun w _ =>
  (w, [], Send (mkResponse 200 (BJson (health_payload w)))).

Definition metrics_payload (w : World) : Json :=
  JObj [("http_requests_total", JObj
           [("total", JNum (N2Q (or_N (requestCount (locals w)) 0)));
            ("timestamp", timestamp w)]);
        ("http_request_duration_seconds", JObj
           [("average", JNum (or_Q (avgResponseTime (locals w)) 0));
            ("timestamp", timestamp w)])].

(** [res.json] without [res.status]: the status stays at its default, 200. *)
Definition metrics_route : Handler := fun w _ =>
  (w, [], Send (mkResponse 200 (BJson (metrics_payload w)))).

Definition features : list string :=
  ["Security scanning with SonarQube";
   "Container scanning with Trivy";
   "Dependency scanning with OWASP";
   "Secrets detection with Gitleaks";
   "Monitoring with Prometheus & Grafana";
   "Deployment to Kubernetes"].

Definition status_payload (w : World) : Json :=
  JObj [("message", JStr "DevOps CI/CD Pipeline Application is running!");
        ("status", JStr "success");
        ("timestamp", timestamp w);
        ("features", strs features)].

Definition status_route : Handler := fun w req =>
  let w' := logger (LogCaller "Status endpoint accessed" (ip req) (userAgent req)) w in
  (w', [], Send (mkResponse 200 (BJson (status_payload w')))).

Definition info_endpoints : list string :=
  ["GET /health - Health check";
   "GET /metrics - Prometheus metrics";
   "GET /api/v1/status - Application status";
   "GET /api/v1/info - Application information"].

Definition info_payload : Json :=
  JObj [("application", JStr "DevOps CI/CD Pipeline Demo");
        ("version", JStr "1.0.0");
        ("description", JStr pipeline_description);
        ("technologies", strs technologies);
        ("endpoints", strs info_endpoints)].

Definition info_route : Handler := fun w _ =>
  (w, [], Send (mkResponse 200 (BJson info_payload))).

(** ** Error boundary, 404 handler and the two counters (lines 146-181) *)

Definition error_payload (w : World) (err : JsError) : Json :=
  JObj [("error", JStr "Internal Server Error");
        ("message", JStr (match NODE_ENV (env w) with
                          | Some e => if String.eqb e "development"
                                      then err_message err
                                      else "Something went wrong"
                          | None => "Something went wrong"
                          end));
        ("timestamp", timestamp w)].

Definition error_boundary (err : JsError) : Handler := fun w _ =>
  let w' := logger (LogError "Unhandled error:" err) w in
  (w', [], Send (mkResponse 500 (BJson (error_payload w' err)))).

Definition not_found_message (req : Request) : string :=
  "Route " +:+ originalUrl req +:+ " not found".

Definition not_found_payload (w : World) (req : Request) : Json :=
  JObj [("error", JStr "Not Found");
        ("message", JStr (not_found_message req));
        ("timestamp", timestamp w)].

Definition not_found : Handler := fun w req =>
  (w, [], Send (mkResponse 404 (BJson (not_found_payload w req)))).

Definition request_counter : Handler := fun w _ =>
  let l := locals w in
  (set_locals (mkLocals (Some (or_N (requestCount l) 0 + 1)%N) (avgResponseTime l)) w,
   [], Next).

(** [req.app.locals.requestCount || 1], the divisor of the average. *)
Definition totalRequests (l : Locals) : N := or_N (requestCount l) 1.

(** The ['finish'] listener of the response-time middleware; [start] is the
    [Date.now()] captured when the middleware ran. *)
Definition on_finish (start : Z) : Hook := fun _ w =>
  let l := locals w in
  let duration := inject_Z (now w - start) in
  let avgTime := or_Q (avgResponseTime l) 0 in
  let total := N2Q (totalRequests l) in
  set_locals
    (mkLocals (requestCount l)
              (Some ((avgTime * (total - 1) + duration) / total)%Q))
    w.

Definition response_timer : Handler := fun w _ =>
  let start := now w in
  (w, [on_finish start], Next).

(** ** The application *)

Definition app_stack : list Layer :=
  [ mkLayer Helmet (Use helmet);
    mkLayer Cors (Use cors);
    mkLayer Limiter (Use limiter);
    mkLayer Morgan (Use morgan);
    mkLayer JsonParser (Use json_parser);
    mkLayer UrlencodedParser (Use urlencoded_parser);
    mkLayer Root (Route GET "/" root_route);
    mkLayer Health (Route GET "/health" health_route);
    mkLayer Metrics (Route GET "/metrics" metrics_route);
    mkLayer ApiStatus (Route GET "/api/v1/status" status_route);
    mkLayer ApiInfo (Route GET "/api/v1/info" info_route);
    mkLayer ErrorBoundary (UseErr error_boundary);
    mkLayer NotFound (UseAt "*" not_found);
    mkLayer RequestCounter (Use request_counter);
    mkLayer ResponseTimer (Use response_timer) ].

(** One inbound request: the stack runs on arrival, the response is
    flushed [ms] milliseconds later, and then the ['finish'] listeners
    run. *)
Definition handle (w : World) (req : Request) : Dispatched :=
  dispatch app_stack None req w [] [].

Definition serve (w : World) (req : Request) (ms : N) : World * Response :=
  let d := handle w req in
  (run_hooks (d_hooks d) (d_response d) (elapse ms (d_world d)), d_response d).

(** A sequential history: requests one after the other, with idle time in
    between. *)
Inductive Event :=
| Inbound (req : Request) (ms : N)
| Idle (ms : N).

Fixpoint run (w : World) (evs : list Event) : World * list Response :=
  match evs with
  | [] => (w, [])
  | Inbound req ms :: rest =>
      let '(w1, r) := serve w req ms in
      let '(w2, rs) := run w1 rest in
      (w2, r :: rs)
  | Idle ms :: rest => run (elapse ms w) rest
  end.

(** The request [m url] from address [addr], without a body. *)
Definition request (m : Method) (url addr : string) : Request :=
  mkRequest m url addr None NoBody.

(** ** Process lifecycle (lines 183-206) *)

Inductive Signal := SIGTERM | SIGINT.

Definition signal_name (s : Signal) : string :=
  match s with
  | SIGTERM => "SIGTERM"
  | SIGINT => "SIGINT"
  end.

(** The node process around the application: the listening server, the
    connections it has accepted whose response is still to be delivered
    (one request per connection, with the time its response takes), and the
    callbacks that [server.close] has queued for the server's ['close']
    event. *)
Record Process := mkProcess {
  world : World;
  listening : bool;
  inflight : list (Request * N);
  closeListeners : nat;
  delivered : list Response
}.

(** The callback both signal handlers pass to [server.close]. *)
Definition on_closed (w : World) : World :=
  process_exit 0 (logger (LogInfo "Process terminated") w).

(** The server emits ['close'] once it has stopped listening and its last
    connection has ended; the first queued callback ends the process. *)
Definition emit_close_if_drained (p : Process) : Process :=
  match listening p, inflight p, closeListeners p with
  | false, [], S _ =>
      mkProcess (on_closed (world p)) false [] 0 (delivered p)
  | _, _, _ => p
  end.

(** [server.close(cb)]: stop accepting, queue [cb], keep the open
    connections. *)
Definition server_close (p : Process) : Process :=
  emit_close_if_drained
    (mkProcess (world p) false (inflight p) (S (closeListeners p)) (delivered p)).

Definition on_signal (s : Signal) (p : Process) : Process :=
  server_close
    (mkProcess
       (logger (LogInfo (signal_name s +:+ " received, shutting down gracefully"))
               (world p))
       (listening p) (inflight p) (closeListeners p) (delivered p)).

Inductive ProcEvent :=
| Signalled (s : Signal)            (* the process receives the signal *)
| Connect (req : Request) (ms : N)  (* a client connects and sends a request *)
| Complete (i : nat)                (* the i-th open request is answered *)
| Wait (ms : N).

Definition step (p : Process) (ev : ProcEvent) : Process :=
  match exitCode (world p) with
  | Some _ => p
  | None =>
      match ev with
      | Signalled s => on_signal s p
      | Connect req ms =>
          if listening p
          then mkProcess (world p) true (inflight p ++ [(req, ms)])
                         (closeListeners p) (delivered p)
          else p
      | Complete i =>
          match inflight p !! i with
          | Some (req, ms) =>
              let '(w', r) := serve (world p) req ms in
              emit_close_if_drained
                (mkProcess w' (listening p) (delete i (inflight p))
                           (closeListeners p) (delivered p ++ [r]))
          | None => p
          end
      | Wait ms =>
          mkProcess (elapse ms (world p)) (listening p) (inflight p)
                    (closeListeners p) (delivered p)
      end
  end.

Definition steps (p : Process) (evs : list ProcEvent) : Process :=
  fold_left step evs p.

(** ** Vocabulary of the statements *)

Definition limiter_allows (w : World) (req : Request) : bool :=
  (fst (hit w (ip req)) <=? limiter_max)%N.

Definition body_accepted (req : Request) : bool :=
  match reqBody req with
  | JsonRejected _ | UrlencodedRejected _ => false
  | NoBody | Parsed => true
  end.

Definition reaches_routes (w : World) (req : Request) : bool :=
  negb (Method_eqb (method req) OPTIONS)
  && limiter_allows w req
  && body_accepted req.

Definition is_counter (n : LayerName) : bool :=
  match n with
  | RequestCounter | ResponseTimer => true
  | _ => false
  end.

(** A body parser rejects the body of the request with error [e]. *)
Definition rejected_with (req : Request) (e : JsError) : Prop :=
  reqBody req = JsonRejected e \/ reqBody req = UrlencodedRejected e.

(** The state once the rate limiter has counted the request. *)
Definition count_hit (w : World) (req : Request) : World :=
  set_hits (<[ip req := hit w (ip req)]> (hits w)) w.

(** The two figures of a metrics payload. *)
Definition reported_total (j : Json) : option Json :=
  match field "http_requests_total" j with
  | Some o => field "total" o
  | None => None
  end.

Definition reported_average (j : Json) : option Json :=
  match field "http_request_duration_seconds" j with
  | Some o => field "average" o
  | None => None
  end.

(** Whether one of the routes of the stack takes the request. *)
Definition is_route_for (req : Request) (l : Layer) : bool :=
  match kind l with
  | Route m pat _ => route_match pat (req_path req) && handles m (method req)
  | _ => false
  end.

Definition matches_defined_route (req : Request) : bool :=
  existsb (is_route_for req) app_stack.


(** The part of the stack in front of the two counters. *)
Definition reachable_stack : list Layer := firstn 13 app_stack.

(** A handler that ends every request it is given. *)
Definition always_sends (h : Handler) : Prop :=
  forall w req, exists w' hs r, h w req = (w', hs, Send r).

(** Framing: a relation on states that every handler of the stack and
    every listener it registers respects is respected by dispatch. *)
Definition hook_respects (R : World -> World -> Prop) (k : Hook) : Prop :=
  forall r w, R w (k r w).

Definition handler_respects (R : World -> World -> Prop) (h : Handler) : Prop :=
  forall w req w' hs out,
    h w req = (w', hs, out) -> R w w' /\ Forall (hook_respects R) hs.

Definition layer_respects (R : World -> World -> Prop) (l : Layer) : Prop :=
  match kind l with
  | Use h | UseAt _ h | Route _ _ h => handler_respects R h
  | UseErr h => forall e, handler_respects R (h e)
  end.

(** Relations between a state and a later one: [req.app.locals] is the
    same, the exit code is the same, the monotonic clock has not gone
    back. *)
Definition same_locals (w w' : World) : Prop := locals w' = locals w.

Definition same_exit (w w' : World) : Prop := exitCode w' = exitCode w.





(** The counting middleware followed by the response-time middleware and
    its ['finish'] listener [ms] milliseconds later. *)
Definition counted_and_timed (w : World) (req : Request) (ms : N) : World :=
  let '(w1, _, _) := request_counter w req in
  let '(w2, hs, _) := response_timer w1 req in
  run_hooks hs (mkResponse 200 BEmpty) (elapse ms w2).

(** An address for the examples. *)
Definition client : string := "203.0.113.7".

Definition metrics_total (r : Response) : option Json :=
  match payload r with
  | Some j => reported_total j
  | None => None
  end.

Definition metrics_average (r : Response) : option Json :=
  match payload r with
  | Some j => reported_average j
  | None => None
  end.



(** ** The origins handed to cors (lines 32-35) *)

(** [s.split(sep)] for a separator of one character. *)
Fixpoint split_on (sep : ascii) (s : string) : list string :=
  match s with
  | EmptyString => [EmptyString]
  | String c r =>
      if Ascii.eqb c sep then EmptyString :: split_on sep r
      else match split_on sep r with
           | x :: xs => String c x :: xs
           | [] => [String c EmptyString]
           end
  end.

(** [l.join(sep)]. *)
Fixpoint join (sep : string) (l : list string) : string :=
  match l with
  | [] => EmptyString
  | [x] => x
  | x :: rest => x +:+ sep +:+ join sep rest
  end.

Definition default_origins : list string := ["http://localhost:3000"].

(** [process.env.ALLOWED_ORIGINS?.split(',') || ['http://localhost:3000']]:
    an array is truthy whatever it holds, so the default is taken only when
    the variable is not set. *)
Definition allowed_origins (ALLOWED_ORIGINS : option string) : list string :=
  match ALLOWED_ORIGINS with
  | Some s => split_on "," s
  | None => default_origins
  end.

Definition has_comma (s : string) : bool :=
  existsb (Ascii.eqb ",") (list_ascii_of_string s).

(** ** Start-up (lines 10 and 200-206) *)

(** [process.env.PORT || 3000], as it prints in a template string. *)
Definition PORT (env_PORT : option string) : string := or_str env_PORT "3000".

(** [app.listen(PORT, callback)] once the port is bound: the server
    listens and the callback has logged its four lines. *)
Definition listen (env_PORT : option string) (w : World) : Process :=
  let w1 := logger (LogInfo ("Server running on port " +:+ PORT env_PORT)) w in
  let w2 := logger (LogInfo ("Environment: "
                             +:+ or_str (NODE_ENV (env w)) "development")) w1 in
  let w3 := logger (LogInfo ("Health check: http://localhost:"
                             +:+ PORT env_PORT +:+ "/health")) w2 in
  let w4 := logger (LogInfo ("Metrics: http://localhost:"
                             +:+ PORT env_PORT +:+ "/metrics")) w3 in
  mkProcess w4 true [] 0 [].

(** ** The test suite (server.test.js) *)

(** [request(app).get(url)]. *)
Definition supertest_get (url addr : string) (agent : option string) : Request :=
  mkRequest GET url addr agent NoBody.

(** [response.body[k]]. *)
Definition body_property (k : string) (r : Response) : option Json :=
  match payload r with
  | Some j => field k j
  | None => None
  end.

(** [expect(response.body).toHaveProperty(k)]. *)
Definition toHaveProperty (k : string) (r : Response) : Prop :=
  exists v, body_property k r = Some v.

Definition test_health (r : Response) : Prop :=
  status r = 200
  /\ body_property "status" r = Some (JStr "healthy")
  /\ toHaveProperty "timestamp" r
  /\ toHaveProperty "uptime" r.

Definition test_status (r : Response) : Prop :=
  status r = 200
  /\ body_property "status" r = Some (JStr "success")
  /\ toHaveProperty "message" r
  /\ toHaveProperty "features" r.

Definition test_info (r : Response) : Prop :=
  status r = 200
  /\ toHaveProperty "application" r
  /\ toHaveProperty "version" r
  /\ toHaveProperty "technologies" r.

Definition test_metrics (r : Response) : Prop :=
  status r = 200
  /\ toHaveProperty "http_requests_total" r
  /\ toHaveProperty "http_request_duration_seconds" r.

Definition test_nonexistent (r : Response) : Prop :=
  status r = 404
  /\ body_property "error" r = Some (JStr "Not Found").

(** The five requests of the suite, in the order of the file; [d] gives
    the time each response takes. *)
Definition suite_requests (addr : string) (agent : option string)
    (d1 d2 d3 d4 d5 : N) : list Event :=
  [Inbound (supertest_get "/health" addr agent) d1;
   Inbound (supertest_get "/api/v1/status" addr agent) d2;
   Inbound (supertest_get "/api/v1/info" addr agent) d3;
   Inbound (supertest_get "/metrics" addr agent) d4;
   Inbound (supertest_get "/nonexistent" addr agent) d5].

Definition suite_passes (answers : list Response) : Prop :=
  match answers with
  | [r1; r2; r3; r4; r5] =>
      test_health r1 /\ test_status r2 /\ test_info r3
      /\ test_metrics r4 /\ test_nonexistent r5
  | _ => False
  end.

(** ** Further vocabulary *)

Definition same_now (w w' : World) : Prop := now w' = now w.

Definition same_hits (w w' : World) : Prop := hits w' = hits w.

Definition same_env (w w' : World) : Prop := env w' = env w.

Definition is_access (e : LogEntry) : bool :=
  match e with
  | LogAccess _ _ _ => true
  | _ => false
  end.

Definition is_signal (ev : ProcEvent) : bool :=
  match ev with
  | Signalled _ => true
  | _ => false
  end.

Definition is_connect (ev : ProcEvent) : bool :=
  match ev with
  | Connect _ _ => true
  | _ => false
  end.

Definition is_inbound (ev : Event) : bool :=
  match ev with
  | Inbound _ _ => true
  | Idle _ => false
  end.

(** The counter and the timer run for one request after the other, with
    the given response times. *)
Definition counted_and_timed_all (w : World) (req : Request) (ds : list N)
  : World :=
  fold_left (fun x d => counted_and_timed x req d) ds w.

Definition total_time (ds : list N) : N := fold_right N.add 0%N ds.

(** The counters hold the number [n] and the sum [sum] of the response
    times seen so far: nothing yet, or the count and the mean. *)
Definition mean_of (n sum : N) (l : Locals) : Prop :=
  (n = 0%N /\ sum = 0%N /\ l = mkLocals None None)
  \/ ((1 <= n)%N /\ requestCount l = Some n
      /\ exists a, avgResponseTime l = Some a /\ (a == N2Q sum / N2Q n)%Q).

(** Every address has at most [k] requests counted. *)
Definition counts_at_most (k : N) (w : World) : Prop :=
  forall addr n reset, hits w !! addr = Some (n, reset) -> (n <= k)%N.

(** * Properties *)

(** ** Express dispatch in general *)

Arguments dispatch : simpl never.

Lemma dispatch_nil err req w hooks visited :
  dispatch [] err req w hooks visited
  = mkDispatched w hooks visited (finalhandler err).
Proof. reflexivity. Qed.

Lemma dispatch_cons l rest err req w hooks visited :
  dispatch (l :: rest) err req w hooks visited
  = match applies l err req with
    | None => dispatch rest err req w hooks visited
    | Some h =>
        let '(w', hs, out) := h w req in
        match out with
        | Next => dispatch rest None req w' (hooks ++ hs) (visited ++ [name l])
        | Raise e => dispatch rest (Some e) req w' (hooks ++ hs) (visited ++ [name l])
        | Send r => mkDispatched w' (hooks ++ hs) (visited ++ [name l]) r
        end
    end.
Proof. reflexivity. Qed.

(** Only layers of the stack are ever entered. *)
Lemma visited_in_stack stack : forall err req w hooks visited n,
  In n (d_visited (dispatch stack err req w hooks visited)) ->
  In n visited \/ In n (map name stack).
Proof.
  induction stack as [|l rest IH]; intros err req w hooks visited n Hin.
  - left. exact Hin.
  - rewrite dispatch_cons in Hin.
    destruct (applies l err req) as [h|].
    + destruct (h w req) as [[w' hs] [ |e|r]]; cbn in Hin |- *.
      * apply IH in Hin. rewrite in_app_iff in Hin. cbn in Hin. tauto.
      * apply IH in Hin. rewrite in_app_iff in Hin. cbn in Hin. tauto.
      * rewrite in_app_iff in Hin. cbn in Hin. tauto.
    + apply IH in Hin. cbn. tauto.
Qed.

(** Layers registered behind an error handler and a catch-all that both
    end the request are never reached: removing them changes nothing. *)
Lemma dispatch_dead_layers nb hb nc hc dead :
  (forall e, always_sends (hb e)) -> always_sends hc ->
  forall live err req w hooks visited,
    dispatch (live ++ mkLayer nb (UseErr hb) :: mkLayer nc (UseAt "*" hc) :: dead)
             err req w hooks visited
    = dispatch (live ++ [mkLayer nb (UseErr hb); mkLayer nc (UseAt "*" hc)])
               err req w hooks visited.
Proof.
  intros Hb Hc live.
  induction live as [|l rest IH]; intros err req w hooks visited.
  - cbn [app]. rewrite !dispatch_cons.
    destruct err as [e|]; cbn [applies kind].
    + destruct (Hb e w req) as (w' & hs & r & ->). reflexivity.
    + rewrite ?dispatch_cons. cbn [applies kind use_match String.eqb Ascii.eqb Bool.eqb].
      destruct (Hc w req) as (w' & hs & r & ->). reflexivity.
  - cbn [app]. rewrite !dispatch_cons.
    destruct (applies l err req) as [h|]; [|apply IH].
    destruct (h w req) as [[w' hs] [ |e|r]]; cbn; auto.
Qed.

Section Frame.
Variable R : World -> World -> Prop.
Hypothesis R_refl : forall w, R w w.
Hypothesis R_trans : forall a b c, R a b -> R b c -> R a c.

Lemma applies_respects l err req h :
  layer_respects R l -> applies l err req = Some h -> handler_respects R h.
Proof.
  unfold layer_respects, applies.
  destruct (kind l) as [h0|pat h0|m pat h0|h0], err as [e|]; intros Hl Ha;
    try discriminate.
  - inversion Ha; subst. exact Hl.
  - destruct (use_match pat (req_path req)); inversion Ha; subst. exact Hl.
  - destruct (route_match pat (req_path req) && handles m (method req));
      inversion Ha; subst. exact Hl.
  - inversion Ha; subst. apply Hl.
Qed.

Lemma dispatch_frame stack :
  Forall (layer_respects R) stack ->
  forall err req w hooks visited,
    Forall (hook_respects R) hooks ->
    let d := dispatch stack err req w hooks visited in
    R w (d_world d) /\ Forall (hook_respects R) (d_hooks d).
Proof.
  induction 1 as [|l rest Hl Hrest IH]; intros err req w hooks visited Hhooks.
  - cbn. split; [apply R_refl | exact Hhooks].
  - cbv zeta. rewrite dispatch_cons.
    destruct (applies l err req) as [h|] eqn:Ha; [|apply IH; exact Hhooks].
    pose proof (applies_respects _ _ _ _ Hl Ha) as Hh.
    destruct (h w req) as [[w' hs] out] eqn:Hrun.
    destruct (Hh _ _ _ _ _ Hrun) as [Hw Hhs].
    assert (Hall : Forall (hook_respects R) (hooks ++ hs))
      by (apply Forall_app; split; assumption).
    destruct out as [ |e|r].
    + destruct (IH None req w' (hooks ++ hs) (visited ++ [name l]) Hall)
        as [H1 H2].
      split; [eapply R_trans; eassumption | exact H2].
    + destruct (IH (Some e) req w' (hooks ++ hs) (visited ++ [name l]) Hall)
        as [H1 H2].
      split; [eapply R_trans; eassumption | exact H2].
    + cbn. split; assumption.
Qed.

Lemma run_hooks_frame hs r :
  Forall (hook_respects R) hs -> forall w, R w (run_hooks hs r w).
Proof.
  induction 1 as [|k rest Hk Hrest IH]; intros w; cbn.
  - apply R_refl.
  - eapply R_trans; [apply Hk | apply IH].
Qed.

End Frame.

(** ** The stack of [server.js] *)

Lemma error_boundary_sends e : always_sends (error_boundary e).
Proof. intros w req. unfold error_boundary. eauto. Qed.

Lemma not_found_sends : always_sends not_found.
Proof. intros w req. unfold not_found. eauto. Qed.

(** The request counter and the response timer are behind the catch-all. *)
Lemma handle_reachable w req :
  handle w req = dispatch reachable_stack None req w [] [].
Proof.
  unfold handle.
  change app_stack with
    (firstn 11 app_stack
       ++ mkLayer ErrorBoundary (UseErr error_boundary)
       :: mkLayer NotFound (UseAt "*" not_found)
       :: skipn 13 app_stack).
  rewrite (dispatch_dead_layers ErrorBoundary error_boundary NotFound not_found
             (skipn 13 app_stack) error_boundary_sends not_found_sends
             (firstn 11 app_stack)).
  reflexivity.
Qed.

Lemma handle_skips_counters w req n :
  In n (d_visited (handle w req)) -> is_counter n = false.
Proof.
  rewrite handle_reachable. intros Hin.
  apply visited_in_stack in Hin. destruct Hin as [[]|Hin].
  cbn in Hin. intuition (subst; reflexivity).
Qed.

Ltac respects_by_cases :=
  intros w req w' hs out Hrun;
  repeat match type of Hrun with
         | context [if ?b then _ else _] => destruct b
         | context [match ?x with _ => _ end] => destruct x
         end;
  inversion Hrun; subst; split;
  repeat first [ apply List.Forall_nil | apply List.Forall_cons ];
  try reflexivity; try (intros r x; reflexivity).

Ltac each_layer :=
  repeat first [ apply List.Forall_nil | apply List.Forall_cons ];
  unfold layer_respects; cbn [kind];
  try match goal with |- forall e : JsError, _ => intros e end;
  unfold helmet, cors, limiter, morgan, json_parser, urlencoded_parser,
    root_route, health_route, metrics_route, status_route, info_route,
    error_boundary, not_found, request_counter, response_timer.

Lemma reachable_same_locals : Forall (layer_respects same_locals) reachable_stack.
Proof.
  unfold reachable_stack, app_stack. cbn [firstn].
  each_layer; unfold same_locals; respects_by_cases.
Qed.

Lemma same_locals_refl w : same_locals w w.
Proof. reflexivity. Qed.

Lemma same_locals_trans a b c : same_locals a b -> same_locals b c -> same_locals a c.
Proof. unfold same_locals. congruence. Qed.

Lemma serve_locals w req ms : locals (fst (serve w req ms)) = locals w.
Proof.
  unfold serve. cbn [fst]. rewrite handle_reachable.
  destruct (dispatch_frame same_locals same_locals_refl same_locals_trans
              reachable_stack reachable_same_locals
              None req w [] [] (List.Forall_nil _)) as [Hw Hhooks].
  rewrite (run_hooks_frame same_locals same_locals_refl same_locals_trans
             _ _ Hhooks).
  exact Hw.
Qed.

Lemma run_locals evs : forall w, locals (fst (run w evs)) = locals w.
Proof.
  induction evs as [|[req ms|ms] rest IH]; intros w; cbn [run].
  - reflexivity.
  - pose proof (serve_locals w req ms) as Hs.
    destruct (serve w req ms) as [w1 r]. cbn [fst] in Hs.
    specialize (IH w1). destruct (run w1 rest) as [w2 rs]. cbn [fst] in *.
    congruence.
  - rewrite IH. reflexivity.
Qed.

(** ** Getting past helmet, cors, the limiter, morgan and the parsers *)

Ltac enter := rewrite dispatch_cons; cbn [applies kind name].

Lemma limiter_allows_ltb w req :
  limiter_allows w req = true ->
  (limiter_max <? fst (hit w (ip req)))%N = false.
Proof.
  unfold limiter_allows. intros H. rewrite N.ltb_antisym, H. reflexivity.
Qed.

Lemma handle_reaches_routes w req :
  reaches_routes w req = true ->
  handle w req
  = dispatch (skipn 6 app_stack) None req (count_hit w req) [access_line req]
      [Helmet; Cors; Limiter; Morgan; JsonParser; UrlencodedParser].
Proof.
  unfold reaches_routes. intros H.
  apply andb_prop in H as [H Hbody]. apply andb_prop in H as [Hopt Hlim].
  apply negb_true_iff in Hopt. apply limiter_allows_ltb in Hlim.
  unfold handle, app_stack.
  enter. unfold helmet.
  enter. unfold cors. rewrite Hopt.
  enter. unfold limiter. cbv zeta. rewrite Hlim.
  enter. unfold morgan.
  enter. unfold json_parser, body_accepted in *.
  destruct (reqBody req) eqn:Hb; try discriminate;
    (enter; unfold urlencoded_parser; rewrite Hb; reflexivity).
Qed.

(** ** The five routes and the 404 handler, for requests that reach them *)

Ltac decide_route :=
  match goal with
  | |- context [route_match ?a ?b && handles ?c ?d] =>
      let v := eval vm_compute in (route_match a b && handles c d) in
      change (route_match a b && handles c d) with v
  | |- context [use_match "*" ?p] => change (use_match "*" p) with true
  end.

Ltac run_handler :=
  unfold root_route, health_route, metrics_route, status_route, info_route,
    error_boundary, not_found;
  cbv beta iota zeta.

Ltac routed Hm Hp :=
  unfold serve; rewrite handle_reaches_routes by assumption;
  unfold app_stack; cbn [skipn];
  repeat (enter; rewrite ?Hp, ?Hm; try decide_route; run_handler);
  cbn [d_hooks d_response d_world app run_hooks].

Lemma serve_root w req ms :
  method req = GET -> req_path req = "/" -> reaches_routes w req = true ->
  serve w req ms
  = (access_line req (mkResponse 200 (BJson (root_payload w)))
       (elapse ms (count_hit w req)),
     mkResponse 200 (BJson (root_payload w))).
Proof. intros Hm Hp Hr. routed Hm Hp. reflexivity. Qed.

Lemma serve_health w req ms :
  method req = GET -> req_path req = "/health" -> reaches_routes w req = true ->
  serve w req ms
  = (access_line req (mkResponse 200 (BJson (health_payload w)))
       (elapse ms (count_hit w req)),
     mkResponse 200 (BJson (health_payload w))).
Proof. intros Hm Hp Hr. routed Hm Hp. reflexivity. Qed.

Lemma serve_metrics w req ms :
  method req = GET -> req_path req = "/metrics" -> reaches_routes w req = true ->
  serve w req ms
  = (access_line req (mkResponse 200 (BJson (metrics_payload w)))
       (elapse ms (count_hit w req)),
     mkResponse 200 (BJson (metrics_payload w))).
Proof. intros Hm Hp Hr. routed Hm Hp. reflexivity. Qed.

Lemma serve_info w req ms :
  method req = GET -> req_path req = "/api/v1/info" ->
  reaches_routes w req = true ->
  serve w req ms
  = (access_line req (mkResponse 200 (BJson info_payload))
       (elapse ms (count_hit w req)),
     mkResponse 200 (BJson info_payload)).
Proof. intros Hm Hp Hr. routed Hm Hp. reflexivity. Qed.

Lemma serve_not_found w req ms :
  matches_defined_route req = false -> reaches_routes w req = true ->
  serve w req ms
  = (access_line req (mkResponse 404 (BJson (not_found_payload w req)))
       (elapse ms (count_hit w req)),
     mkResponse 404 (BJson (not_found_payload w req))).
Proof.
  unfold matches_defined_route, app_stack. cbn [existsb is_route_for kind orb].
  intros H Hr.
  repeat (apply orb_false_elim in H as [?H H]).
  unfold serve. rewrite handle_reaches_routes by assumption.
  unfold app_stack. cbn [skipn].
  repeat (enter;
          repeat match goal with
                 | Hc : (route_match ?a ?b && handles ?c ?d) = false |- _ =>
                     rewrite Hc; clear Hc
                 end;
          try decide_route; run_handler).
  reflexivity.
Qed.

(** An error pending at any layer up to the boundary is answered by the
    boundary. *)
Lemma boundary_catches k e req w hooks visited :
  (k <= 11)%nat ->
  dispatch (skipn k app_stack) (Some e) req w hooks visited
  = mkDispatched (logger (LogError "Unhandled error:" e) w) hooks
      (visited ++ [ErrorBoundary])
      (mkResponse 500 (BJson (error_payload w e))).
Proof.
  intros Hk. unfold app_stack.
  do 12 (destruct k as [|k];
         [ cbn [skipn]; repeat enter; run_handler;
           rewrite ?app_nil_r; reflexivity | ]).
  lia.
Qed.

Lemma handle_rejected_body w req e :
  Method_eqb (method req) OPTIONS = false ->
  limiter_allows w req = true ->
  rejected_with req e ->
  handle w req
  = mkDispatched (logger (LogError "Unhandled error:" e) (count_hit w req))
      [access_line req]
      [Helmet; Cors; Limiter; Morgan; JsonParser; ErrorBoundary]
      (mkResponse 500 (BJson (error_payload w e)))
    \/
  handle w req
  = mkDispatched (logger (LogError "Unhandled error:" e) (count_hit w req))
      [access_line req]
      [Helmet; Cors; Limiter; Morgan; JsonParser; UrlencodedParser; ErrorBoundary]
      (mkResponse 500 (BJson (error_payload w e))).
Proof.
  intros Hopt Hlim Hrej. apply limiter_allows_ltb in Hlim.
  unfold handle, app_stack.
  enter. unfold helmet.
  enter. unfold cors. rewrite Hopt.
  enter. unfold limiter. cbv zeta. rewrite Hlim.
  enter. unfold morgan.
  enter. unfold json_parser.
  destruct Hrej as [Hb|Hb]; rewrite Hb.
  - left. rewrite (boundary_catches 5) by lia. reflexivity.
  - right. enter. unfold urlencoded_parser. rewrite Hb.
    rewrite (boundary_catches 6) by lia. reflexivity.
Qed.

(** ** What no layer of the stack changes *)

Section AppFrame.
Variable R : World -> World -> Prop.
Hypothesis R_refl : forall w, R w w.
Hypothesis R_trans : forall a b c, R a b -> R b c -> R a c.
Hypothesis R_stack : Forall (layer_respects R) app_stack.
Hypothesis R_elapse : forall ms w, R w (elapse ms w).

Lemma serve_frame w req ms : R w (fst (serve w req ms)).
Proof.
  unfold serve, handle. cbn [fst].
  destruct (dispatch_frame R R_refl R_trans app_stack R_stack
              None req w [] [] (List.Forall_nil _)) as [Hw Hhooks].
  eapply R_trans; [exact Hw|].
  eapply R_trans; [apply R_elapse|].
  apply (run_hooks_frame R R_refl R_trans _ _ Hhooks).
Qed.

Lemma run_frame evs : forall w, R w (fst (run w evs)).
Proof.
  induction evs as [|[req ms|ms] rest IH]; intros w; cbn [run].
  - apply R_refl.
  - pose proof (serve_frame w req ms) as Hs.
    destruct (serve w req ms) as [w1 r]. cbn [fst] in Hs.
    specialize (IH w1). destruct (run w1 rest) as [w2 rs]. cbn [fst] in *.
    eapply R_trans; eassumption.
  - eapply R_trans; [apply R_elapse | apply IH].
Qed.
End AppFrame.

Lemma stack_same_exit : Forall (layer_respects same_exit) app_stack.
Proof. unfold app_stack. each_layer; unfold same_exit; respects_by_cases. Qed.

Lemma serve_exitCode w req ms : exitCode (fst (serve w req ms)) = exitCode w.
Proof.
  apply (serve_frame same_exit); unfold same_exit;
    auto using stack_same_exit; congruence.
Qed.









(** ** The rate limiter is the only layer that reads its store *)




Lemma Method_eqb_neq m m' : m <> m' -> Method_eqb m m' = false.
Proof. destruct m, m'; intros H; try reflexivity; contradiction H; reflexivity. Qed.

Lemma handle_allowed w req :
  Method_eqb (method req) OPTIONS = false ->
  limiter_allows w req = true ->
  handle w req
  = dispatch (skipn 3 app_stack) None req (count_hit w req) []
      [Helmet; Cors; Limiter].
Proof.
  intros Hopt Hlim. apply limiter_allows_ltb in Hlim.
  unfold handle, app_stack.
  enter. unfold helmet.
  enter. unfold cors. rewrite Hopt.
  enter. unfold limiter. cbv zeta. rewrite Hlim.
  reflexivity.
Qed.

Lemma handle_limited w req :
  Method_eqb (method req) OPTIONS = false ->
  limiter_allows w req = false ->
  handle w req
  = mkDispatched (count_hit w req) [] [Helmet; Cors; Limiter]
      (mkResponse 429 (BText limiter_message)).
Proof.
  intros Hopt Hlim.
  assert (Hlt : (limiter_max <? fst (hit w (ip req)))%N = true).
  { unfold limiter_allows in Hlim. rewrite N.ltb_antisym, Hlim. reflexivity. }
  unfold handle, app_stack.
  enter. unfold helmet.
  enter. unfold cors. rewrite Hopt.
  enter. unfold limiter. cbv zeta. rewrite Hlt.
  reflexivity.
Qed.

Lemma handle_preflight w req :
  Method_eqb (method req) OPTIONS = true ->
  handle w req = mkDispatched w [] [Helmet; Cors] (mkResponse 204 BEmpty).
Proof.
  intros Hopt. unfold handle, app_stack.
  enter. unfold helmet.
  enter. unfold cors. rewrite Hopt.
  reflexivity.
Qed.



(** ** Shutdown *)






(** A request that does not reach the routes is answered by cors (204), by
    the limiter (429) or by the error boundary (500). *)
Lemma stopped_before_routes w req :
  reaches_routes w req = false ->
  status (d_response (handle w req)) = 204
  \/ status (d_response (handle w req)) = 429
  \/ status (d_response (handle w req)) = 500.
Proof.
  unfold reaches_routes. intros H.
  destruct (Method_eqb (method req) OPTIONS) eqn:Hopt.
  - left. rewrite handle_preflight by assumption. reflexivity.
  - destruct (limiter_allows w req) eqn:Hlim.
    + right. right. cbn in H. unfold body_accepted in H.
      destruct (reqBody req) as [ | |e|e] eqn:Hb; try discriminate.
      * destruct (handle_rejected_body w req e Hopt Hlim (or_introl Hb))
          as [-> | ->]; reflexivity.
      * destruct (handle_rejected_body w req e Hopt Hlim (or_intror Hb))
          as [-> | ->]; reflexivity.
    + right. left. rewrite handle_limited by assumption. reflexivity.
Qed.

Lemma ok_reaches_routes w req ms :
  status (snd (serve w req ms)) = 200 -> reaches_routes w req = true.
Proof.
  unfold serve. cbn [snd]. intros Hok.
  destruct (reaches_routes w req) eqn:Hr; [reflexivity|].
  destruct (stopped_before_routes w req Hr) as [H|[H|H]];
    rewrite H in Hok; discriminate.
Qed.

(** ** What the two counters compute when they are run *)

(** Run directly, the counting middleware adds exactly one. *)
Lemma request_counter_adds_one w req :
  request_counter w req
  = (set_locals (mkLocals (Some (or_N (requestCount (locals w)) 0 + 1)%N)
                          (avgResponseTime (locals w))) w,
     [], Next).
Proof. reflexivity. Qed.

Lemma or_Q_zero q : (or_Q (Some q) 0 == q)%Q.
Proof.
  unfold or_Q. destruct (Qeq_bool q 0) eqn:Hz; [|reflexivity].
  apply Qeq_bool_eq in Hz. symmetry. exact Hz.
Qed.

Lemma counted_and_timed_locals w req ms :
  let n := (or_N (requestCount (locals w)) 0 + 1)%N in
  locals (counted_and_timed w req ms)
  = mkLocals (Some n)
      (Some ((or_Q (avgResponseTime (locals w)) 0 * (N2Q n - 1) + N2Q ms)
             / N2Q n)%Q).
Proof.
  cbv zeta. unfold counted_and_timed, request_counter, response_timer, on_finish.
  cbn [run_hooks locals set_locals elapse now requestCount avgResponseTime].
  unfold totalRequests. cbn [requestCount or_N].
  destruct (or_N (requestCount (locals w)) 0 + 1 =? 0)%N eqn:Hz;
    [apply N.eqb_eq in Hz; lia|].
  replace (now w + Z.of_N ms - now w) with (Z.of_N ms) by lia.
  reflexivity.
Qed.

(** Run directly on a fresh state the pair yields [D] after one request and
    [(D1 + D2) / 2] after two. *)
Lemma counted_and_timed_mean e t req1 req2 d1 d2 :
  let w1 := counted_and_timed (boot e t) req1 d1 in
  let w2 := counted_and_timed w1 req2 d2 in
  exists a1 a2,
    locals w1 = mkLocals (Some 1%N) (Some a1)
    /\ locals w2 = mkLocals (Some 2%N) (Some a2)
    /\ (a1 == N2Q d1)%Q
    /\ (a2 == (N2Q d1 + N2Q d2) / 2)%Q.
Proof.
  cbv zeta.
  pose proof (counted_and_timed_locals (boot e t) req1 d1) as H1.
  pose proof (counted_and_timed_locals
                (counted_and_timed (boot e t) req1 d1) req2 d2) as H2.
  cbv zeta in H1, H2. rewrite H1 in H2.
  cbn [requestCount avgResponseTime boot locals or_N] in H1, H2.
  change (0 + 1)%N with 1%N in H1, H2.
  change (1 =? 0)%N with false in H2. cbv iota in H2.
  change (1 + 1)%N with 2%N in H2.
  eexists _, _. split; [exact H1|]. split; [exact H2|].
  assert (Ha : ((or_Q None 0 * (N2Q 1 - 1) + N2Q d1) / N2Q 1 == N2Q d1)%Q).
  { unfold or_Q. change (N2Q 1) with 1%Q.
    generalize (N2Q d1). intros x. field. }
  split; [exact Ha|].
  rewrite or_Q_zero, Ha. change (N2Q 2) with 2%Q.
  generalize (N2Q d1), (N2Q d2). intros x y. field.
Qed.

(** * The statements of the specification *)

(** C1, at a failing input: three sequential requests (N = 3), then
    [GET /metrics].  The specification has the reported total equal to 3;
    the application reports 0, because the counting middleware is
    registered behind the catch-all 404 handler and never runs. *)
Example total_after_three_requests :
  let history := [Inbound (request GET "/" client) 5;
                  Inbound (request GET "/health" client) 5;
                  Inbound (request GET "/nonexistent-path" client) 5] in
  let w := fst (run (boot (mkEnv None None) 0) history) in
  map status (snd (run (boot (mkEnv None None) 0) history)) = [200; 200; 404]
  /\ metrics_total (snd (serve w (request GET "/metrics" client) 5))
     = Some (JNum 0)
  /\ requestCount (locals w) = None.
Proof. vm_compute. repeat split. Qed.

(** C2, at a failing input: one completed request of duration 5 ms, then
    [GET /metrics].  The specification has the reported average equal to
    5; the application reports 0, because the response-time middleware is
    registered behind the catch-all 404 handler and never runs. *)
Example average_after_one_request :
  let w := fst (run (boot (mkEnv None None) 0)
                    [Inbound (request GET "/" client) 5]) in
  metrics_average (snd (serve w (request GET "/metrics" client) 5))
  = Some (JNum 0)
  /\ avgResponseTime (locals w) = None.
Proof. vm_compute. repeat split. Qed.

(** C3: the request counter and the response timer are registered behind
    the route handlers, the error boundary and the catch-all 404 handler,
    which all end the request; so whatever requests came before, no request
    enters either middleware, [req.app.locals] stays as it was at start-up,
    the metrics payload of the state shows a total of 0 and an average of
    0, and that payload is what a [GET /metrics] answered with 200
    carries. *)
Theorem counters_never_run :
  forall (e : Env) (t : Z) (history : list Event) (req mreq : Request) (ms : N),
    method mreq = GET -> req_path mreq = "/metrics" ->
    status (snd (serve (fst (run (boot e t) history)) mreq ms)) = 200 ->
    let w := fst (run (boot e t) history) in
    ~ In RequestCounter (d_visited (handle w req))
    /\ ~ In ResponseTimer (d_visited (handle w req))
    /\ locals w = mkLocals None None
    /\ reported_total (metrics_payload w) = Some (JNum 0)
    /\ reported_average (metrics_payload w) = Some (JNum 0)
    /\ snd (serve w mreq ms) = mkResponse 200 (BJson (metrics_payload w)).
Proof.
  intros e t history req mreq ms Hm Hp Hok w.
  assert (Hl : locals w = mkLocals None None) by apply run_locals.
  split; [|split; [|split; [|split; [|split]]]].
  - intros Hin. apply handle_skips_counters in Hin. discriminate.
  - intros Hin. apply handle_skips_counters in Hin. discriminate.
  - exact Hl.
  - unfold metrics_payload, reported_total. rewrite Hl. reflexivity.
  - unfold metrics_payload, reported_average. rewrite Hl. reflexivity.
  - apply ok_reaches_routes in Hok. rewrite serve_metrics by assumption.
    reflexivity.
Qed.

Lemma counters_never_run_witness :
  let w := fst (run (boot (mkEnv None None) 0)
                    [Inbound (request GET "/" client) 5]) in
  ~ In RequestCounter (d_visited (handle w (request POST "/health" client)))
  /\ locals w = mkLocals None None
  /\ metrics_total (snd (serve w (request GET "/metrics" client) 5))
     = Some (JNum 0).
Proof.
  destruct (counters_never_run (mkEnv None None) 0
              [Inbound (request GET "/" client) 5]
              (request POST "/health" client)
              (request GET "/metrics" client) 5
              eq_refl eq_refl eq_refl) as (H1 & _ & H3 & H4 & _ & H6).
  split; [exact H1 | split; [exact H3|]].
  unfold metrics_total. rewrite H6. exact H4.
Defined.















Example defined_routes_examples :
  matches_defined_route (request GET "/nonexistent-path" client) = false
  /\ matches_defined_route (request POST "/health" client) = false
  /\ matches_defined_route (request GET "/health?verbose=1" client) = true
  /\ matches_defined_route (request HEAD "/Health/" client) = true.
Proof. vm_compute. repeat split. Qed.




(** C10: the divisor of the running average is [requestCount || 1]: it is
    1 when the counter is unset or 0 and the counter itself otherwise, so
    whatever [req.app.locals] holds it is at least 1 and the listener never
    divides by zero. *)
Theorem divisor_at_least_one :
  forall (l : Locals) (a : option Q) (n : N) (start : Z) (r : Response) (w : World),
    (1 <= totalRequests l)%N
    /\ ~ (N2Q (totalRequests l) == 0)%Q
    /\ totalRequests (mkLocals None a) = 1%N
    /\ totalRequests (mkLocals (Some 0%N) a) = 1%N
    /\ totalRequests (mkLocals (Some (N.succ n)) a) = N.succ n
    /\ avgResponseTime (locals (on_finish start r w))
       = Some ((or_Q (avgResponseTime (locals w)) 0
                  * (N2Q (totalRequests (locals w)) - 1)
                + inject_Z (now w - start))
               / N2Q (totalRequests (locals w)))%Q.
Proof.
  intros l a n start r w.
  assert (H1 : (1 <= totalRequests l)%N).
  { unfold totalRequests, or_N. destruct (requestCount l) as [k|]; [|lia].
    destruct (k =? 0)%N eqn:Hk; [lia|]. apply N.eqb_neq in Hk. lia. }
  split; [exact H1|]. split.
  - unfold N2Q, Qeq. cbn. lia.
  - repeat split.
    unfold totalRequests, or_N. cbn [requestCount].
    destruct (N.succ n =? 0)%N eqn:Hk; [|reflexivity].
    apply N.eqb_eq in Hk. lia.
Qed.



Example shutdown_trace :
  let req := request GET "/health" client in
  let p := mkProcess (boot (mkEnv None None) 0) true [(req, 5%N)] 0 [] in
  let p1 := step p (Signalled SIGINT) in
  let p2 := step p1 (Connect (request GET "/" client) 1) in
  let p3 := step p2 (Complete 0) in
  exitCode (world p1) = None
  /\ map fst (inflight p2) = [req]
  /\ map status (delivered p3) = [200]
  /\ exitCode (world p3) = Some 0
  /\ log (world p3)
     = [LogInfo "SIGINT received, shutting down gracefully";
        LogAccess GET "/health" 200;
        LogInfo "Process terminated"].
Proof. vm_compute. repeat split. Qed.

(** * Further properties of [server.js] *)

(** ** The origins handed to cors *)

Lemma split_on_nonempty sep s : split_on sep s <> [].
Proof.
  destruct s as [|c r]; cbn; [discriminate|].
  destruct (Ascii.eqb c sep); [discriminate|].
  destruct (split_on sep r); discriminate.
Qed.

Lemma String_append c a b : String c a +:+ b = String c (a +:+ b).
Proof. reflexivity. Qed.

Lemma join_cons sep x y rest :
  join sep (x :: y :: rest) = x +:+ sep +:+ join sep (y :: rest).
Proof. reflexivity. Qed.

Lemma join_split_on (c : ascii) s :
  join (String c EmptyString) (split_on c s) = s.
Proof.
  induction s as [|x r IH]; [reflexivity|].
  cbn [split_on]. destruct (Ascii.eqb x c) eqn:Hx.
  - apply Ascii.eqb_eq in Hx. subst x.
    pose proof (split_on_nonempty c r) as Hne.
    destruct (split_on c r) as [|y rest] eqn:Hs; [contradiction|].
    rewrite join_cons, IH. reflexivity.
  - pose proof (split_on_nonempty c r) as Hne.
    destruct (split_on c r) as [|y rest] eqn:Hs; [contradiction|].
    destruct rest as [|z rest].
    + cbn in IH |- *. rewrite IH. reflexivity.
    + rewrite join_cons in IH. rewrite join_cons, String_append, IH.
      reflexivity.
Qed.

Lemma split_on_no_separator c s :
  Forall (fun x => existsb (Ascii.eqb c) (list_ascii_of_string x) = false)
         (split_on c s).
Proof.
  induction s as [|x r IH]; cbn [split_on].
  - repeat constructor.
  - destruct (Ascii.eqb x c) eqn:Hx.
    + constructor; [reflexivity | exact IH].
    + destruct (split_on c r) as [|y rest]; [repeat constructor; cbn|].
      * rewrite Ascii.eqb_sym, Hx. reflexivity.
      * inversion IH; subst. constructor; [|assumption].
        cbn. rewrite Ascii.eqb_sym, Hx. assumption.
Qed.

Lemma split_on_length c s :
  length (split_on c s)
  = S (length (filter (fun x => Ascii.eqb x c = true) (list_ascii_of_string s))).
Proof.
  induction s as [|x r IH]; [reflexivity|].
  cbn [split_on list_ascii_of_string]. rewrite filter_cons.
  destruct (Ascii.eqb x c) eqn:Hx.
  - rewrite decide_True by reflexivity. cbn. rewrite IH. reflexivity.
  - rewrite decide_False by discriminate.
    destruct (split_on c r) as [|y rest]; [discriminate IH|]. exact IH.
Qed.

(** X1: splitting [ALLOWED_ORIGINS] at the commas loses nothing: joining
    the origins with commas gives the variable back, no origin contains a
    comma, and there is one origin more than there are commas. *)
Theorem allowed_origins_round_trip :
  forall s : string,
    join "," (allowed_origins (Some s)) = s
    /\ Forall (fun o => has_comma o = false) (allowed_origins (Some s))
    /\ length (allowed_origins (Some s))
       = S (length (filter (fun x => Ascii.eqb x "," = true)
                           (list_ascii_of_string s))).
Proof.
  intros s. unfold allowed_origins, has_comma.
  split; [apply join_split_on|].
  split; [apply split_on_no_separator | apply split_on_length].
Qed.

(** X2: the list of origins is never empty, and it is the default list
    exactly when [ALLOWED_ORIGINS] is not set or spells the default
    itself; in particular an empty [ALLOWED_ORIGINS] does not fall back to
    the default but allows the single origin [""]. *)
Theorem allowed_origins_default :
  forall v : option string,
    allowed_origins v <> []
    /\ (allowed_origins v = default_origins
        <-> v = None \/ v = Some "http://localhost:3000")
    /\ allowed_origins (Some "") = [""].
Proof.
  intros v. split; [|split; [|reflexivity]].
  - destruct v as [s|]; [apply split_on_nonempty | discriminate].
  - split.
    + destruct v as [s|]; [|auto]. intros H. right. f_equal.
      rewrite <- (join_split_on "," s). cbn in H. rewrite H. reflexivity.
    + intros [-> | ->]; reflexivity.
Qed.

(** ** What a request leaves behind *)

Lemma stack_same_now : Forall (layer_respects same_now) app_stack.
Proof. unfold app_stack. each_layer; unfold same_now; respects_by_cases. Qed.

Lemma stack_same_env : Forall (layer_respects same_env) app_stack.
Proof. unfold app_stack. each_layer; unfold same_env; respects_by_cases. Qed.

Lemma behind_limiter_same_hits :
  Forall (layer_respects same_hits) (skipn 3 app_stack).
Proof.
  unfold app_stack. cbn [skipn].
  each_layer; unfold same_hits; respects_by_cases.
Qed.

Lemma same_env_refl w : same_env w w.
Proof. reflexivity. Qed.

Lemma same_env_trans a b c : same_env a b -> same_env b c -> same_env a c.
Proof. unfold same_env. congruence. Qed.



Lemma same_now_refl w : same_now w w.
Proof. reflexivity. Qed.

Lemma same_now_trans a b c : same_now a b -> same_now b c -> same_now a c.
Proof. unfold same_now. congruence. Qed.

Lemma same_hits_refl w : same_hits w w.
Proof. reflexivity. Qed.

Lemma same_hits_trans a b c : same_hits a b -> same_hits b c -> same_hits a c.
Proof. unfold same_hits. congruence. Qed.

Lemma serve_now w req ms :
  now (fst (serve w req ms)) = now w + Z.of_N ms.
Proof.
  unfold serve, handle. cbn [fst].
  destruct (dispatch_frame same_now same_now_refl same_now_trans app_stack
              stack_same_now None req w [] [] (List.Forall_nil _))
    as [Hw Hhooks].
  rewrite (run_hooks_frame same_now same_now_refl same_now_trans _ _ Hhooks).
  cbn [elapse now]. rewrite Hw. reflexivity.
Qed.

Lemma run_env evs w : env (fst (run w evs)) = env w.
Proof.
  exact (run_frame same_env same_env_refl same_env_trans stack_same_env
           (fun _ _ => eq_refl) evs w).
Qed.


(** The store after a request: only the limiter writes it. *)
Lemma serve_hits w req ms :
  hits (fst (serve w req ms))
  = if Method_eqb (method req) OPTIONS then hits w
    else <[ip req := hit w (ip req)]> (hits w).
Proof.
  unfold serve. cbn [fst].
  destruct (Method_eqb (method req) OPTIONS) eqn:Hopt.
  - rewrite handle_preflight by assumption. reflexivity.
  - destruct (limiter_allows w req) eqn:Hlim.
    + rewrite handle_allowed by assumption.
      destruct (dispatch_frame same_hits same_hits_refl same_hits_trans
                  (skipn 3 app_stack) behind_limiter_same_hits
                  None req (count_hit w req) [] [Helmet; Cors; Limiter]
                  (List.Forall_nil _)) as [Hw Hhooks].
      rewrite (run_hooks_frame same_hits same_hits_refl same_hits_trans
                 _ _ Hhooks).
      cbn [elapse hits]. rewrite Hw. reflexivity.
    + rewrite handle_limited by assumption. reflexivity.
Qed.

(** What the routes and the 404 handler make of a request that reaches
    them. *)
Lemma handle_routed w req :
  reaches_routes w req = true ->
  d_hooks (handle w req) = [access_line req]
  /\ (status (d_response (handle w req)) = 200
      \/ status (d_response (handle w req)) = 404)
  /\ (exists j, body (d_response (handle w req)) = BJson j)
  /\ (exists mid, log (d_world (handle w req)) = log w ++ mid
                  /\ existsb is_access mid = false).
Proof.
  intros Hr. rewrite handle_reaches_routes by assumption.
  unfold app_stack. cbn [skipn].
  repeat (enter;
          try match goal with
              | |- context [route_match ?a ?b && handles ?c ?d] =>
                  destruct (route_match a b && handles c d)
              end;
          try decide_route; run_handler;
          try (cbn [d_hooks d_response d_world status body app log logger
                    count_hit set_hits];
               repeat split; eauto;
               first [ exists []; rewrite app_nil_r; split; reflexivity
                     | eexists [_]; split; reflexivity ])).
Qed.

Lemma not_reaching_cases w req :
  reaches_routes w req = false ->
  Method_eqb (method req) OPTIONS = true
  \/ (Method_eqb (method req) OPTIONS = false /\ limiter_allows w req = false)
  \/ (exists e, Method_eqb (method req) OPTIONS = false
                /\ limiter_allows w req = true /\ rejected_with req e).
Proof.
  unfold reaches_routes, body_accepted, rejected_with. intros H.
  destruct (Method_eqb (method req) OPTIONS); [left; reflexivity|].
  destruct (limiter_allows w req); [|right; left; split; reflexivity].
  right. right. cbn in H.
  destruct (reqBody req) as [ | |e|e]; try discriminate; exists e; auto.
Qed.

Lemma serve_cases w req ms :
  (Method_eqb (method req) OPTIONS = true
   /\ snd (serve w req ms) = mkResponse 204 BEmpty)
  \/ (Method_eqb (method req) OPTIONS = false
      /\ limiter_allows w req = false
      /\ snd (serve w req ms) = mkResponse 429 (BText limiter_message))
  \/ (exists e,
        Method_eqb (method req) OPTIONS = false
        /\ limiter_allows w req = true
        /\ rejected_with req e
        /\ snd (serve w req ms) = mkResponse 500 (BJson (error_payload w e)))
  \/ (reaches_routes w req = true
      /\ (status (snd (serve w req ms)) = 200
          \/ status (snd (serve w req ms)) = 404)
      /\ exists j, body (snd (serve w req ms)) = BJson j).
Proof.
  unfold serve. cbn [snd].
  destruct (reaches_routes w req) eqn:Hr.
  - right. right. right.
    destruct (handle_routed w req Hr) as (_ & Hst & Hbody & _). auto.
  - destruct (not_reaching_cases w req Hr)
      as [Hopt|[[Hopt Hlim]|(e & Hopt & Hlim & Hrej)]].
    + left. rewrite handle_preflight by assumption. auto.
    + right. left. rewrite handle_limited by assumption. auto.
    + right. right. left. exists e.
      destruct (handle_rejected_body w req e Hopt Hlim Hrej) as [-> | ->];
        auto.
Qed.


Lemma log_access_line req r ms x :
  log (run_hooks [access_line req] r (elapse ms x))
  = log x ++ [LogAccess (method req) (originalUrl req) (status r)].
Proof. reflexivity. Qed.

(** X4: morgan is registered behind cors and the rate limiter.  A
    preflight request and a request over the limit leave the log as it
    was; every other request appends its access line, with the status that
    was sent, as the last entry, and nothing before it is an access
    line. *)
Theorem access_line_behind_limiter :
  forall (w : World) (req : Request) (ms : N),
    if Method_eqb (method req) OPTIONS || negb (limiter_allows w req)
    then log (fst (serve w req ms)) = log w
    else exists mid,
        log (fst (serve w req ms))
        = log w ++ mid
            ++ [LogAccess (method req) (originalUrl req)
                          (status (snd (serve w req ms)))]
        /\ existsb is_access mid = false.
Proof.
  intros w req ms. unfold serve. cbn [fst snd].
  destruct (Method_eqb (method req) OPTIONS) eqn:Hopt; cbn [orb].
  { rewrite handle_preflight by assumption. reflexivity. }
  destruct (limiter_allows w req) eqn:Hlim; cbn [negb].
  2:{ rewrite handle_limited by assumption. reflexivity. }
  destruct (reaches_routes w req) eqn:Hr.
  - destruct (handle_routed w req Hr) as (Hh & _ & _ & mid & Hlog & Hmid).
    exists mid. remember (handle w req) as d eqn:Hd. clear Hd.
    destruct d as [dw dh dv dr]. cbn [d_hooks d_world d_response] in *.
    subst dh. rewrite log_access_line, Hlog, <- app_assoc.
    split; [reflexivity | exact Hmid].
  - destruct (not_reaching_cases w req Hr)
      as [Hopt'|[[_ Hlim']|(e & _ & _ & Hrej)]]; try congruence.
    exists [LogError "Unhandled error:" e].
    destruct (handle_rejected_body w req e Hopt Hlim Hrej) as [-> | ->];
      cbn [d_hooks d_world d_response]; rewrite log_access_line;
      (split; [|reflexivity]);
      change (log (logger (LogError "Unhandled error:" e) (count_hit w req)))
        with (log w ++ [LogError "Unhandled error:" e]);
      rewrite <- app_assoc; reflexivity.
Qed.

Lemma status_429_iff w req ms :
  Method_eqb (method req) OPTIONS = false ->
  status (snd (serve w req ms)) = 429 <-> limiter_allows w req = false.
Proof.
  intros Hopt.
  destruct (serve_cases w req ms)
    as [[Ho _]|[(_ & Hl & H)|[(e & _ & Hl & _ & H)|(Hr & Hst & _)]]].
  - congruence.
  - rewrite H, Hl. split; reflexivity.
  - rewrite H, Hl. split; discriminate.
  - assert (Hl : limiter_allows w req = true).
    { unfold reaches_routes in Hr. apply andb_prop in Hr as [Hr _].
      apply andb_prop in Hr as [_ Hr]. exact Hr. }
    rewrite Hl. split; [|discriminate].
    intros H. destruct Hst as [Hs|Hs]; rewrite Hs in H; discriminate.
Qed.

Lemma serve_status w req ms :
  method req = GET -> req_path req = "/api/v1/status" ->
  reaches_routes w req = true ->
  serve w req ms
  = (access_line req (mkResponse 200 (BJson (status_payload w)))
       (elapse ms
          (logger (LogCaller "Status endpoint accessed" (ip req) (userAgent req))
                  (count_hit w req))),
     mkResponse 200 (BJson (status_payload w))).
Proof. intros Hm Hp Hr. routed Hm Hp. reflexivity. Qed.





(** ** The rate limiter over time *)

Lemma hit_live w key n reset :
  hits w !! key = Some (n, reset) -> now w < reset ->
  hit w key = ((n + 1)%N, reset).
Proof.
  intros Hl Hlive. unfold hit. rewrite Hl.
  apply Z.leb_gt in Hlive. rewrite Hlive. reflexivity.
Qed.

(** X7: a request that is not a preflight request is counted exactly once
    for its own address, whether it is let through or turned away: in a
    running window the count goes up by one and the end of the window
    stays where it was, and the entry of every other address stays
    untouched.  A preflight request is not counted at all. *)
Theorem limiter_counts_once :
  forall (w : World) (req pre : Request) (ms : N) (other : string)
         (n : N) (reset : Z),
    method req <> OPTIONS ->
    method pre = OPTIONS ->
    ip req <> other ->
    hits w !! ip req = Some (n, reset) ->
    now w < reset ->
    hits (fst (serve w req ms)) !! ip req = Some ((n + 1)%N, reset)
    /\ hits (fst (serve w req ms)) !! other = hits w !! other
    /\ hits (fst (serve w pre ms)) = hits w.
Proof.
  intros w req pre ms other n reset Hopt Hpre Hother Hl Hlive.
  apply Method_eqb_neq in Hopt.
  rewrite !serve_hits, Hopt, Hpre. cbn [Method_eqb].
  rewrite lookup_insert_eq, (lookup_insert_ne _ _ _ _ Hother).
  rewrite (hit_live _ _ _ _ Hl Hlive). auto.
Qed.

Lemma limiter_counts_once_witness :
  let w := set_hits {[ client := (100%N, windowMs) ]} (boot (mkEnv None None) 0) in
  let req := request GET "/health" client in
  status (snd (serve w req 1)) = 429
  /\ hits (fst (serve w req 1)) !! client = Some (101%N, windowMs).
Proof.
  intros w req. split; [reflexivity|].
  destruct (limiter_counts_once w req (request OPTIONS "/health" client) 1
              "198.51.100.9" 100 windowMs
              ltac:(discriminate) eq_refl ltac:(discriminate)
              eq_refl eq_refl) as [H _].
  exact H.
Defined.

Lemma hit_at_most k w key :
  counts_at_most k w -> (fst (hit w key) <= k + 1)%N.
Proof.
  intros Hk. unfold hit.
  destruct (hits w !! key) as [[n reset]|] eqn:Hl; [|cbn; lia].
  specialize (Hk _ _ _ Hl).
  destruct (reset <=? now w); cbn; lia.
Qed.

Lemma serve_counts_at_most k w req ms :
  counts_at_most k w -> counts_at_most (k + 1) (fst (serve w req ms)).
Proof.
  intros Hk addr n reset. rewrite serve_hits.
  destruct (Method_eqb (method req) OPTIONS).
  - intros Hl. specialize (Hk _ _ _ Hl). lia.
  - destruct (decide (ip req = addr)) as [<-|Hne].
    + rewrite lookup_insert_eq. intros Hl.
      pose proof (hit_at_most k w (ip req) Hk) as Hh.
      inversion Hl as [Heq]. rewrite Heq in Hh. exact Hh.
    + rewrite lookup_insert_ne by assumption.
      intros Hl. specialize (Hk _ _ _ Hl). lia.
Qed.

Lemma run_never_limited history : forall k w,
  counts_at_most k w ->
  (k + N.of_nat (length (List.filter is_inbound history)) <= limiter_max)%N ->
  Forall (fun r => status r <> 429) (snd (run w history)).
Proof.
  induction history as [|[req ms|ms] rest IH]; intros k w Hk Hlen;
    cbn [run List.filter is_inbound length] in *.
  - constructor.
  - pose proof (serve_counts_at_most k w req ms Hk) as Hk1.
    assert (Hallow : limiter_allows w req = true).
    { unfold limiter_allows. apply N.leb_le.
      pose proof (hit_at_most k w (ip req) Hk). lia. }
    assert (Hst : status (snd (serve w req ms)) <> 429).
    { destruct (Method_eqb (method req) OPTIONS) eqn:Hopt.
      - unfold serve. cbn [snd]. rewrite handle_preflight by assumption.
        discriminate.
      - intros H. apply status_429_iff in H; [congruence | assumption]. }
    destruct (serve w req ms) as [w1 r]. cbn [fst snd] in *.
    specialize (IH (k + 1)%N w1 Hk1).
    destruct (run w1 rest) as [w2 rs]. cbn [snd] in *.
    constructor; [exact Hst | apply IH; lia].
  - apply (IH k); [|exact Hlen].
    intros addr n reset Hl. exact (Hk addr n reset Hl).
Qed.

(** X8: of the first hundred requests after start-up none is turned away by
    the rate limiter, whatever their addresses and timing. *)
Theorem first_hundred_never_limited :
  forall (e : Env) (t : Z) (history : list Event),
    (length (List.filter is_inbound history) <= 100)%nat ->
    Forall (fun r => status r <> 429) (snd (run (boot e t) history)).
Proof.
  intros e t history Hlen.
  apply (run_never_limited history 0).
  - intros addr n reset Hl. cbn in Hl. rewrite lookup_empty in Hl.
    discriminate.
  - unfold limiter_max. lia.
Qed.

Lemma first_hundred_never_limited_witness :
  Forall (fun r => status r <> 429)
    (snd (run (boot (mkEnv None None) 0)
              (repeat (Inbound (request GET "/health" client) 1) 100))).
Proof.
  apply first_hundred_never_limited. vm_compute. lia.
Defined.

Lemma allows_live w req n reset :
  hits w !! ip req = Some (n, reset) -> now w < reset ->
  limiter_allows w req = false <-> (100 <= n)%N.
Proof.
  intros Hl Hlive. unfold limiter_allows, limiter_max.
  rewrite (hit_live _ _ _ _ Hl Hlive). cbn [fst].
  rewrite N.leb_gt. lia.
Qed.

Lemma burst_in_window req ms : forall (k : nat) (w : World) (n : N) (reset : Z),
  Method_eqb (method req) OPTIONS = false ->
  hits w !! ip req = Some (n, reset) ->
  now w + Z.of_N ms * Z.of_nat k < reset ->
  forall (i : nat) (r : Response),
    snd (run w (repeat (Inbound req ms) k)) !! i = Some r ->
    status r = 429 <-> (100 <= n + N.of_nat i)%N.
Proof.
  induction k as [|k IH]; intros w n reset Hopt Hl Hlive i r Hi.
  - cbn in Hi. discriminate.
  - cbn [repeat run] in Hi.
    assert (Hnow : now w < reset) by nia.
    pose proof (serve_hits w req ms) as Hh.
    pose proof (serve_now w req ms) as Hn.
    pose proof (status_429_iff w req ms Hopt) as Hs.
    rewrite Hopt, (hit_live _ _ _ _ Hl Hnow) in Hh.
    destruct (serve w req ms) as [w1 r0]. cbn [fst snd] in *.
    assert (Hl1 : hits w1 !! ip req = Some ((n + 1)%N, reset))
      by (rewrite Hh; apply lookup_insert_eq).
    specialize (IH w1 (n + 1)%N reset Hopt Hl1).
    destruct (run w1 (repeat (Inbound req ms) k)) as [w2 rs]. cbn [snd] in *.
    destruct i as [|i].
    + cbn in Hi. inversion Hi; subst r0.
      rewrite Hs, (allows_live _ _ _ _ Hl Hnow). lia.
    + cbn in Hi. rewrite (IH ltac:(nia) i r Hi). lia.
Qed.

(** X9: the limit is exact.  When an address that has no requests counted
    sends a burst of requests that fits into the 15-minute window, the
    first hundred are not answered 429 and every later one is. *)
Theorem burst_first_hundred :
  forall (w : World) (req : Request) (ms : N) (k i : nat) (r : Response),
    method req <> OPTIONS ->
    hits w !! ip req = None ->
    Z.of_N ms * Z.of_nat k < windowMs ->
    snd (run w (repeat (Inbound req ms) k)) !! i = Some r ->
    status r = 429 <-> (100 <= i)%nat.
Proof.
  intros w req ms k i r Hopt Hnone Hfit Hi.
  apply Method_eqb_neq in Hopt.
  destruct k as [|k]; [cbn in Hi; discriminate|].
  cbn [repeat run] in Hi.
  pose proof (serve_hits w req ms) as Hh.
  pose proof (serve_now w req ms) as Hn.
  pose proof (status_429_iff w req ms Hopt) as Hs.
  assert (Hhit : hit w (ip req) = (1%N, now w + windowMs))
    by (unfold hit; rewrite Hnone; reflexivity).
  rewrite Hopt, Hhit in Hh.
  assert (Hallow : limiter_allows w req = true)
    by (unfold limiter_allows; rewrite Hhit; reflexivity).
  destruct (serve w req ms) as [w1 r0]. cbn [fst snd] in *.
  assert (Hl1 : hits w1 !! ip req = Some (1%N, now w + windowMs))
    by (rewrite Hh; apply lookup_insert_eq).
  pose proof (burst_in_window req ms k w1 1%N (now w + windowMs) Hopt Hl1
                ltac:(nia)) as Hrest.
  destruct (run w1 (repeat (Inbound req ms) k)) as [w2 rs]. cbn [snd] in *.
  destruct i as [|i].
  - cbn in Hi. inversion Hi; subst r0. rewrite Hs, Hallow.
    split; [discriminate | lia].
  - cbn in Hi. rewrite (Hrest i r Hi). lia.
Qed.

Lemma burst_first_hundred_witness :
  let req := request GET "/api/v1/info" client in
  let answers := snd (run (boot (mkEnv None None) 0)
                          (repeat (Inbound req 3) 150)) in
  (status <$> answers !! 120%nat) = Some 429.
Proof.
  intros req answers.
  destruct (answers !! 120%nat) as [r|] eqn:Hr; [|vm_compute in Hr; discriminate].
  cbn. f_equal.
  apply (burst_first_hundred (boot (mkEnv None None) 0) req 3 150 120 r
           ltac:(discriminate) eq_refl ltac:(reflexivity) Hr).
  lia.
Defined.

(** ** The process between start-up and the first signal *)

Lemma step_running p ev :
  listening p = true -> exitCode (world p) = None -> is_signal ev = false ->
  listening (step p ev) = true
  /\ exitCode (world (step p ev)) = None
  /\ closeListeners (step p ev) = closeListeners p
  /\ (length (delivered (step p ev)) + length (inflight (step p ev))
      = length (delivered p) + length (inflight p)
        + (if is_connect ev then 1 else 0))%nat.
Proof.
  intros Hl Hex Hsig. unfold step. rewrite Hex.
  destruct ev as [s|req ms|i|ms]; [discriminate| | |]; cbn [is_connect].
  - rewrite Hl. cbn. rewrite length_app. cbn. repeat split; auto; lia.
  - destruct (inflight p !! i) as [[req ms]|] eqn:Hi.
    + pose proof (serve_exitCode (world p) req ms) as Hs.
      destruct (serve (world p) req ms) as [w' r]. cbn [fst] in Hs.
      unfold emit_close_if_drained. cbn. rewrite Hl. cbn.
      rewrite length_app, length_delete by eauto. cbn.
      apply lookup_lt_Some in Hi.
      repeat split; auto; [congruence | lia].
    + repeat split; auto; lia.
  - cbn. repeat split; auto; lia.
Qed.

(** X10: [process.exit] is called from the signal handlers only.  As long
    as no signal arrives the process does not exit and keeps listening,
    every connection is accepted, and every accepted request is either
    still open or has had its response delivered. *)
Theorem running_until_signalled :
  forall (p : Process) (events : list ProcEvent),
    listening p = true ->
    exitCode (world p) = None ->
    existsb is_signal events = false ->
    listening (steps p events) = true
    /\ exitCode (world (steps p events)) = None
    /\ (length (delivered (steps p events)) + length (inflight (steps p events))
        = length (delivered p) + length (inflight p)
          + length (List.filter is_connect events))%nat.
Proof.
  intros p events. revert p. unfold steps.
  induction events as [|ev rest IH]; intros p Hl Hex Hsig; cbn [fold_left].
  - cbn. repeat split; auto; lia.
  - cbn [existsb] in Hsig. apply orb_false_elim in Hsig as [Hev Hrest].
    destruct (step_running p ev Hl Hex Hev) as (Hl1 & Hex1 & _ & Hlen).
    destruct (IH (step p ev) Hl1 Hex1 Hrest) as (H1 & H2 & H3).
    split; [exact H1|]. split; [exact H2|].
    rewrite H3, Hlen. cbn [List.filter].
    destruct (is_connect ev); cbn [length]; lia.
Qed.

Lemma running_until_signalled_witness :
  let p := listen None (boot (mkEnv None None) 0) in
  let q := steps p [Connect (request GET "/health" client) 4; Wait 10;
                    Connect (request GET "/" client) 2; Complete 1] in
  exitCode (world q) = None
  /\ (length (delivered q) + length (inflight q) = 2)%nat.
Proof.
  intros p q.
  destruct (running_until_signalled p
              [Connect (request GET "/health" client) 4; Wait 10;
               Connect (request GET "/" client) 2; Complete 1]
              eq_refl eq_refl eq_refl) as (_ & H2 & H3).
  split; [exact H2 | exact H3].
Defined.

(** ** Requests and the process *)


(** X12: the environment name that the start-up callback logs is the one
    that every later [GET /health] answered with 200 reports, whatever
    happened in between. *)
Theorem startup_environment_is_reported :
  forall (env_PORT : option string) (w : World) (history : list Event)
         (req : Request) (ms : N),
    method req = GET -> req_path req = "/health" ->
    status (snd (serve (fst (run (world (listen env_PORT w)) history)) req ms))
    = 200 ->
    let name := or_str (NODE_ENV (env w)) "development" in
    In (LogInfo ("Environment: " +:+ name)) (log (world (listen env_PORT w)))
    /\ body_property "environment"
         (snd (serve (fst (run (world (listen env_PORT w)) history)) req ms))
       = Some (JStr name).
Proof.
  intros env_PORT w history req ms Hm Hp Hok name. split.
  - unfold listen. cbn. rewrite !in_app_iff. cbn. auto 10.
  - apply ok_reaches_routes in Hok.
    rewrite serve_health by assumption.
    unfold body_property, payload, health_payload. cbn.
    rewrite run_env. reflexivity.
Qed.

Lemma startup_environment_is_reported_witness :
  let p := listen (Some "8080") (boot (mkEnv (Some "staging") None) 0) in
  body_property "environment"
    (snd (serve (fst (run (world p) [Idle 60000])) (request GET "/health" client) 2))
  = Some (JStr "staging").
Proof.
  intros p.
  destruct (startup_environment_is_reported (Some "8080")
              (boot (mkEnv (Some "staging") None) 0) [Idle 60000]
              (request GET "/health" client) 2 eq_refl eq_refl eq_refl)
    as [_ H].
  exact H.
Defined.

(** ** The test suite *)

Lemma run_cons w req ms rest :
  run w (Inbound req ms :: rest)
  = (fst (run (fst (serve w req ms)) rest),
     snd (serve w req ms) :: snd (run (fst (serve w req ms)) rest)).
Proof.
  cbn [run]. destruct (serve w req ms) as [w1 r]. cbn [fst snd].
  destruct (run w1 rest) as [w2 rs]. reflexivity.
Qed.

Lemma get_reaches_routes k w url addr agent :
  counts_at_most k w -> (k < 100)%N ->
  reaches_routes w (supertest_get url addr agent) = true.
Proof.
  intros Hk Hlt. unfold reaches_routes, supertest_get. cbn.
  rewrite andb_true_r. unfold limiter_allows, limiter_max. cbn [ip].
  apply N.leb_le. pose proof (hit_at_most k w addr Hk). lia.
Qed.

(** X13: the five tests of [server.test.js] pass when they are run in
    order against a freshly started application, whatever the environment
    variables, the clock, the address and user agent of the test client
    and the time the responses take. *)
Theorem test_suite_passes :
  forall (e : Env) (t : Z) (addr : string) (agent : option string)
         (d1 d2 d3 d4 d5 : N),
    suite_passes
      (snd (run (boot e t) (suite_requests addr agent d1 d2 d3 d4 d5))).
Proof.
  intros e t addr agent d1 d2 d3 d4 d5. unfold suite_requests.
  set (w0 := boot e t).
  assert (H0 : counts_at_most 0 w0).
  { intros a n reset Hl. cbn in Hl. rewrite lookup_empty in Hl. discriminate. }
  rewrite run_cons. cbn [snd].
  pose proof (serve_counts_at_most 0 w0 (supertest_get "/health" addr agent)
                d1 H0) as H1.
  set (w1 := fst (serve w0 (supertest_get "/health" addr agent) d1)) in *.
  rewrite run_cons. cbn [snd].
  pose proof (serve_counts_at_most _ w1
                (supertest_get "/api/v1/status" addr agent) d2 H1) as H2.
  set (w2 := fst (serve w1 (supertest_get "/api/v1/status" addr agent) d2)) in *.
  rewrite run_cons. cbn [snd].
  pose proof (serve_counts_at_most _ w2
                (supertest_get "/api/v1/info" addr agent) d3 H2) as H3.
  set (w3 := fst (serve w2 (supertest_get "/api/v1/info" addr agent) d3)) in *.
  rewrite run_cons. cbn [snd].
  pose proof (serve_counts_at_most _ w3
                (supertest_get "/metrics" addr agent) d4 H3) as H4.
  set (w4 := fst (serve w3 (supertest_get "/metrics" addr agent) d4)) in *.
  rewrite run_cons. cbn [snd run].
  clearbody w0 w1 w2 w3 w4.
  rewrite (serve_health w0), (serve_status w1), (serve_info w2),
    (serve_metrics w3), (serve_not_found w4);
    try reflexivity;
    try (eapply get_reaches_routes; [eassumption | lia]).
  unfold suite_passes, test_health, test_status, test_info, test_metrics,
    test_nonexistent, toHaveProperty, body_property.
  cbn. repeat split; eauto.
Qed.

(** ** The running average, were the two counters to run *)

Lemma N2Q_add a b : (N2Q (a + b) == N2Q a + N2Q b)%Q.
Proof. unfold N2Q. rewrite N2Z.inj_add, inject_Z_plus. reflexivity. Qed.

Lemma N2Q_nonzero n : (1 <= n)%N -> ~ (N2Q n == 0)%Q.
Proof. intros H. unfold N2Q, Qeq. cbn. lia. Qed.

Lemma mean_update (x x1 s y : Q) :
  (x1 == x + 1)%Q -> ~ (x == 0)%Q -> ~ (x1 == 0)%Q ->
  ((s / x * (x1 - 1) + y) / x1 == (s + y) / x1)%Q.
Proof.
  intros Hx1 Hx Hne. rewrite Hx1 in Hne |- *. field. split; assumption.
Qed.

Lemma mean_step n sum w req d :
  mean_of n sum (locals w) ->
  mean_of (n + 1) (sum + d) (locals (counted_and_timed w req d)).
Proof.
  intros Hm. right. rewrite counted_and_timed_locals. cbv zeta.
  destruct Hm as [(-> & -> & Hl)|(Hn & Hc & a & Ha & Hmean)].
  - rewrite Hl. cbn [requestCount avgResponseTime or_N or_Q].
    change (0 + 1)%N with 1%N.
    split; [lia|]. split; [reflexivity|]. eexists. split; [reflexivity|].
    change (N2Q 1) with 1%Q. change (0 + d)%N with d.
    generalize (N2Q d). intros x. field.
  - rewrite Hc, Ha. cbn [requestCount avgResponseTime or_N].
    destruct (n =? 0)%N eqn:Hz; [apply N.eqb_eq in Hz; lia|].
    split; [lia|]. split; [reflexivity|]. eexists. split; [reflexivity|].
    rewrite or_Q_zero, Hmean, (N2Q_add sum d).
    apply mean_update.
    + rewrite (N2Q_add n 1). reflexivity.
    + apply N2Q_nonzero. exact Hn.
    + apply N2Q_nonzero. lia.
Qed.

Lemma mean_steps req ds : forall n sum w,
  mean_of n sum (locals w) ->
  mean_of (n + N.of_nat (length ds)) (sum + total_time ds)
          (locals (counted_and_timed_all w req ds)).
Proof.
  unfold counted_and_timed_all.
  induction ds as [|d rest IH]; intros n sum w Hm; cbn [fold_left length total_time fold_right].
  - rewrite !N.add_0_r. exact Hm.
  - apply (mean_step _ _ _ req d) in Hm. apply IH in Hm.
    fold (total_time rest).
    replace (n + N.of_nat (S (length rest)))%N
      with (n + 1 + N.of_nat (length rest))%N by lia.
    replace (sum + (d + total_time rest))%N
      with (sum + d + total_time rest)%N by lia.
    exact Hm.
Qed.

(** X14: were the request counter and the response timer to run for every
    request, one request after the other, from a fresh state, then after
    any non-empty sequence of requests the counter would hold their number
    and the average would be the arithmetic mean of their response
    times. *)
Theorem counters_keep_the_mean :
  forall (e : Env) (t : Z) (req : Request) (ds : list N),
    ds <> [] ->
    let l := locals (counted_and_timed_all (boot e t) req ds) in
    requestCount l = Some (N.of_nat (length ds))
    /\ exists a,
         avgResponseTime l = Some a
         /\ (a == N2Q (total_time ds) / N2Q (N.of_nat (length ds)))%Q.
Proof.
  intros e t req ds Hne l.
  pose proof (mean_steps req ds 0 0 (boot e t)) as H.
  fold l in H. rewrite !N.add_0_l in H.
  destruct H as [(Hz & _)|(_ & Hc & Ha)].
  - left. repeat split; reflexivity.
  - destruct ds; [contradiction | cbn in Hz; lia].
  - split; assumption.
Qed.

Lemma counters_keep_the_mean_witness :
  requestCount
    (locals (counted_and_timed_all (boot (mkEnv None None) 0)
               (request GET "/" client) [4; 6; 11]%N))
  = Some 3%N.
Proof.
  destruct (counters_keep_the_mean (mkEnv None None) 0
              (request GET "/" client) [4; 6; 11]%N ltac:(discriminate))
    as [H _].
  exact H.
Defined.

(** X15: without the counter the timer keeps no average.  While
    [requestCount] is unset or 0 the divisor is 1, so the ['finish']
    listener replaces the average by the duration of the response that has
    just finished, whatever the average was. *)
Theorem timer_alone_keeps_last_duration :
  forall (start : Z) (r : Response) (w : World),
    totalRequests (locals w) = 1%N ->
    exists a,
      avgResponseTime (locals (on_finish start r w)) = Some a
      /\ (a == inject_Z (now w - start))%Q
      /\ requestCount (locals (on_finish start r w)) = requestCount (locals w).
Proof.
  intros start r w Hone. unfold on_finish. cbn [locals set_locals avgResponseTime requestCount].
  rewrite Hone. eexists. split; [reflexivity|]. split; [|reflexivity].
  change (N2Q 1) with 1%Q.
  generalize (or_Q (avgResponseTime (locals w)) 0), (inject_Z (now w - start)).
  intros x y. field.
Qed.

Lemma timer_alone_keeps_last_duration_witness :
  exists a,
    avgResponseTime
      (locals (on_finish 100 (mkResponse 200 BEmpty)
                 (set_locals (mkLocals None (Some 250%Q))
                             (boot (mkEnv None None) 107))))
    = Some a
    /\ (a == 7)%Q.
Proof.
  destruct (timer_alone_keeps_last_duration 100 (mkResponse 200 BEmpty)
              (set_locals (mkLocals None (Some 250%Q))
                          (boot (mkEnv None None) 107)) eq_refl)
    as (a & Ha & Heq & _).
  exists a. split; [exact Ha | exact Heq].
Defined.

(** ** The end of a window *)

Lemma burst_entry req ms : forall (k : nat) (w : World) (n : N) (reset : Z),
  Method_eqb (method req) OPTIONS = false ->
  hits w !! ip req = Some (n, reset) ->
  now w + Z.of_N ms * Z.of_nat k < reset ->
  hits (fst (run w (repeat (Inbound req ms) k))) !! ip req
  = Some ((n + N.of_nat k)%N, reset)
  /\ now (fst (run w (repeat (Inbound req ms) k)))
     = now w + Z.of_N ms * Z.of_nat k.
Proof.
  induction k as [|k IH]; intros w n reset Hopt Hl Hfit.
  - cbn. rewrite N.add_0_r. split; [exact Hl | lia].
  - cbn [repeat]. rewrite run_cons. cbn [fst].
    assert (Hnow : now w < reset) by nia.
    pose proof (serve_hits w req ms) as Hh.
    pose proof (serve_now w req ms) as Hn.
    rewrite Hopt, (hit_live _ _ _ _ Hl Hnow) in Hh.
    assert (Hl1 : hits (fst (serve w req ms)) !! ip req
                  = Some ((n + 1)%N, reset))
      by (rewrite Hh; apply lookup_insert_eq).
    destruct (IH _ _ _ Hopt Hl1 ltac:(nia)) as [H1 H2].
    rewrite H1, H2, Hn. split; [f_equal; f_equal; lia | nia].
Qed.

(** X16: the window is fixed: requests that are turned away do not prolong
    it.  When an address that has no requests counted sends a burst of any
    length that fits into the 15-minute window and then waits until 15
    minutes have passed since its first request, its next request is let
    through and opens a new window with a count of one. *)
Theorem window_reopens :
  forall (w : World) (req : Request) (ms idle : N) (k : nat),
    method req <> OPTIONS ->
    hits w !! ip req = None ->
    (1 <= k)%nat ->
    Z.of_N ms * Z.of_nat k < windowMs ->
    windowMs <= Z.of_N ms * Z.of_nat k + Z.of_N idle ->
    let w' := fst (run (fst (run w (repeat (Inbound req ms) k))) [Idle idle]) in
    limiter_allows w' req = true
    /\ status (snd (serve w' req ms)) <> 429
    /\ hits (fst (serve w' req ms)) !! ip req = Some (1%N, now w' + windowMs).
Proof.
  intros w req ms idle k Hopt Hnone Hk Hfit Hidle w'.
  apply Method_eqb_neq in Hopt.
  destruct k as [|k]; [lia|].
  assert (Hburst : hits (fst (run w (repeat (Inbound req ms) (S k)))) !! ip req
                   = Some ((1 + N.of_nat k)%N, now w + windowMs)
                   /\ now (fst (run w (repeat (Inbound req ms) (S k))))
                      = now w + Z.of_N ms * Z.of_nat (S k)).
  { cbn [repeat]. rewrite run_cons. cbn [fst].
    pose proof (serve_hits w req ms) as Hh.
    pose proof (serve_now w req ms) as Hn.
    assert (Hhit : hit w (ip req) = (1%N, now w + windowMs))
      by (unfold hit; rewrite Hnone; reflexivity).
    rewrite Hopt, Hhit in Hh.
    assert (Hl1 : hits (fst (serve w req ms)) !! ip req
                  = Some (1%N, now w + windowMs))
      by (rewrite Hh; apply lookup_insert_eq).
    destruct (burst_entry req ms k _ _ _ Hopt Hl1 ltac:(nia)) as [H1 H2].
    rewrite H1, H2, Hn. split; [reflexivity | nia]. }
  destruct Hburst as [Hl Hn].
  set (wb := fst (run w (repeat (Inbound req ms) (S k)))) in *.
  assert (Hw' : w' = elapse idle wb) by reflexivity.
  assert (Hhit : hit w' (ip req) = (1%N, now w' + windowMs)).
  { rewrite Hw'. unfold hit. cbn [elapse hits now]. rewrite Hl, Hn.
    replace (now w + windowMs
             <=? now w + Z.of_N ms * Z.of_nat (S k) + Z.of_N idle) with true
      by (symmetry; apply Z.leb_le; lia).
    reflexivity. }
  assert (Hallow : limiter_allows w' req = true)
    by (unfold limiter_allows; rewrite Hhit; reflexivity).
  split; [exact Hallow|]. split.
  - intros H. apply status_429_iff in H; [congruence | assumption].
  - rewrite serve_hits, Hopt, Hhit. apply lookup_insert_eq.
Qed.

Lemma window_reopens_witness :
  let req := request GET "/health" client in
  let w := boot (mkEnv None None) 0 in
  let w' := fst (run (fst (run w (repeat (Inbound req 10) 150)))
                     [Idle 900000]) in
  limiter_allows w' req = true.
Proof.
  intros req w w'.
  destruct (window_reopens w req 10 900000 150
              ltac:(discriminate) eq_refl ltac:(lia)
              ltac:(reflexivity) ltac:(vm_compute; discriminate))
    as [H _].
  exact H.
Defined.
